(** * nnpde: the Dirichlet problem orchestrator ([nnpde/problems.py])

    A shallow embedding of [DirichletProblem] and of the collaborators
    it drives, together with the properties of the specification that
    concern it.

    Python objects are attribute dictionaries: [self] is a finite map
    from attribute names to values, reading an attribute that was never
    assigned raises [AttributeError], and [__init__] runs on a fresh,
    empty object.  Exceptions are an error result; the random source
    and the sequence of calls made to the collaborating modules are
    threaded through a state-and-error monad. *)

From Stdlib Require Import ZArith QArith Ascii String Lia.
From stdpp Require Import base option list strings gmap fin_maps.

Local Open Scope string_scope.
Local Open Scope Z_scope.

(** ** Python strings: [str.lower] *)

(** [str.lower] on the ASCII range: the capital letters 65..90 move to
    97..122, every other byte is kept.  The two literals the constructor
    compares against are ASCII, and no character outside ASCII lowers to
    one of their letters, so the comparison is decided by this map. *)
Definition lower_ascii (c : ascii) : ascii :=
  let n := nat_of_ascii c in
  if ((65 <=? n) && (n <=? 90))%nat then ascii_of_nat (n + 32) else c.

Fixpoint lower (s : string) : string :=
  match s with
  | EmptyString => EmptyString
  | String c s' => String (lower_ascii c) (lower s')
  end.

(** ** Exceptions and results *)

Inductive exn : Type :=
| ValueError (msg : string)
| AttributeError (attr : string)
| RuntimeError (msg : string)
| TypeError (msg : string)
| ShapeMismatch
| OperatorContractViolation.

Inductive result (A : Type) : Type :=
| Ok (a : A)
| Err (e : exn).
Arguments Ok {A} a.
Arguments Err {A} e.

(** ** Scalars, tensors, values *)

(** The entries of a field.  The solvers only add, subtract, scale and
    take a quarter; nothing below depends on how these round. *)
Class Scalar (R : Type) : Type := {
  s_zero : R;
  s_add : R → R → R;
  s_sub : R → R → R;
  s_mul : R → R → R;
  s_quarter : R → R
}.

(** An N×N grid, row major. *)
Abbreviation grid A := (list (list A)).

(** A 4-dimensional tensor [batch, channel, row, column]; the fields
    of the program all have shape [1, 1, N, N]. *)
Abbreviation tensor A := (list (list (grid A))).

Definition full {A} (a b c d : nat) (x : A) : tensor A :=
  replicate a (replicate b (replicate c (replicate d x))).

(** [torch.zeros(a, b, c, d)]: a negative size is refused. *)
Definition torch_zeros {R} `{Scalar R} (a b c d : Z) : result (tensor R) :=
  if (a <? 0) || (b <? 0) || (c <? 0) || (d <? 0)
  then Err (RuntimeError "Trying to create tensor with negative dimension")
  else Ok (full (Z.to_nat a) (Z.to_nat b) (Z.to_nat c) (Z.to_nat d) s_zero).

Inductive value (R : Type) : Type :=
| VNone
| VInt (n : Z)
| VTensor (t : tensor R)
| VMask (m : tensor bool).
Arguments VNone {R}.
Arguments VInt {R} n.
Arguments VTensor {R} t.
Arguments VMask {R} m.

(** [x is None] *)
Definition is_None {R} (v : value R) : bool :=
  match v with VNone => true | _ => false end.

(** ** The world the constructor runs in *)

Section Problems.
Context {R : Type} `{Scalar R}.
(** The state of the global random source, and the external operator
    ([net]) handed to [compute_solution]. *)
Context {Rng Net : Type}.

(** A call that left [problems.py]. *)
Inductive event : Type :=
| EvSquareGeometry (N : Z)
| EvLShapedGeometry (N : Z)
| EvNormalTensor (N : Z) (requires_grad : bool)
| EvZeros (a b c d : Z)
| EvJacobi (B_idx B f initial_u k : value R)
| EvH (net : Net) (B_idx B f initial_u k : value R).

(** The modules [problems.py] imports and calls:
    [geometries], [utils.misc] and [iterative_methods]. *)
Record collaborators : Type := {
  square_geometry : Z → result (value R * value R);
  l_shaped_geometry : Z → result (value R * value R);
  normal_distributed_tensor : Z → bool → Rng → result (value R) * Rng;
  jacobi_method :
    value R → value R → value R → value R → value R → result (value R);
  H_method :
    Net → value R → value R → value R → value R → value R →
    result (value R)
}.

Record world : Type := {
  self : gmap string (value R);
  rng : Rng;
  trace : list event
}.

Definition M (A : Type) : Type := world → result A * world.

Definition ret {A} (a : A) : M A := λ w, (Ok a, w).

Definition bind {A B} (m : M A) (k : A → M B) : M B :=
  λ w, match m w with
       | (Ok a, w') => k a w'
       | (Err e, w') => (Err e, w')
       end.

Definition raise {A} (e : exn) : M A := λ w, (Err e, w).

Definition lift {A} (r : result A) : M A := λ w, (r, w).

Definition emit (e : event) : M unit :=
  λ w, (Ok tt, {| self := self w; rng := rng w; trace := trace w ++ [e] |}).

(** [self.name] *)
Definition getattr (name : string) : M (value R) :=
  λ w, match self w !! name with
       | Some v => (Ok v, w)
       | None => (Err (AttributeError name), w)
       end.

(** [self.name = v] *)
Definition setattr (name : string) (v : value R) : M unit :=
  λ w, (Ok tt,
        {| self := <[name := v]> (self w); rng := rng w; trace := trace w |}).

Definition draw (N : Z) (requires_grad : bool)
    (sample : Z → bool → Rng → result (value R) * Rng) : M (value R) :=
  λ w, let '(r, g) := sample N requires_grad (rng w) in
       (r, {| self := self w; rng := g; trace := trace w |}).
End Problems.

Arguments event : clear implicits.
Arguments collaborators : clear implicits.
Arguments world : clear implicits.
Arguments M : clear implicits.

Declare Scope py_scope.
Delimit Scope py_scope with py.
Notation "x <- c1 ;; c2" := (bind c1 (λ x, c2))
  (at level 100, c1 at next level, right associativity) : py_scope.
Notation "' ( x , y ) <- c1 ;; c2" := (bind c1 (λ p, let '(x, y) := p in c2))
  (at level 100, c1 at next level, right associativity) : py_scope.
Notation "c1 ;;; c2" := (bind c1 (λ _, c2))
  (at level 100, right associativity) : py_scope.

(** ** [class DirichletProblem] *)

Section DirichletProblem.
Context {R : Type} `{Scalar R} {Rng Net : Type}.
Variable ext : collaborators R Rng Net.

Local Open Scope py_scope.
Local Abbreviation M := (M R Rng Net).

(** Calls into the collaborating modules; each one is recorded. *)
Definition call_square_geometry (N : Z) : M (value R * value R) :=
  emit (EvSquareGeometry N) ;;; lift (square_geometry ext N).

Definition call_l_shaped_geometry (N : Z) : M (value R * value R) :=
  emit (EvLShapedGeometry N) ;;; lift (l_shaped_geometry ext N).

Definition call_normal_distributed_tensor (N : Z) (requires_grad : bool)
    : M (value R) :=
  emit (EvNormalTensor N requires_grad) ;;;
  draw N requires_grad (normal_distributed_tensor ext).

Definition call_torch_zeros (a b c d : Z) : M (value R) :=
  emit (EvZeros a b c d) ;;;
  t <- lift (torch_zeros a b c d) ;;
  ret (VTensor t).

Definition call_jacobi_method (B_idx B f initial_u k : value R)
    : M (value R) :=
  emit (EvJacobi B_idx B f initial_u k) ;;;
  lift (jacobi_method ext B_idx B f initial_u k).

Definition call_H_method (net : Net) (B_idx B f initial_u k : value R)
    : M (value R) :=
  emit (EvH net B_idx B f initial_u k) ;;;
  lift (H_method ext net B_idx B f initial_u k).

Definition no_such_domain_type : string :=
  "no such domain_type known, try either `square` or `l_shape`".

(** [DirichletProblem.__init__], statement by statement. *)
Definition __init__
    (B_idx B f k k_ground_truth initial_ground_truth initial_u : value R)
    (domain_type : string) (N : Z) : M unit :=
  (* Initialize Geometry and Boundary Conditions *)
  (if is_None B_idx then
     if String.eqb (lower domain_type) "square" then
       '(m, b) <- call_square_geometry N ;;
       setattr "B_idx" m ;;; setattr "B" b
     else if String.eqb (lower domain_type) "l_shape" then
       '(m, b) <- call_l_shaped_geometry N ;;
       setattr "B_idx" m ;;; setattr "B" b
     else raise (ValueError no_such_domain_type)
   else ret tt) ;;;
  (* Initialize f *)
  (if is_None f then
     z <- call_torch_zeros 1 1 N N ;; setattr "f" z
   else setattr "f" f) ;;;
  (* Initialize parameters to compute ground truth solution *)
  (if is_None initial_ground_truth then
     t <- call_normal_distributed_tensor N false ;;
     setattr "initial_ground_truth" t
   else setattr "initial_ground_truth" initial_ground_truth) ;;;
  setattr "k_ground_truth" k_ground_truth ;;;
  setattr "_ground_truth" VNone ;;;
  (* Initialize parameters to obtain u *)
  (if is_None initial_u then
     t <- call_normal_distributed_tensor N true ;;
     setattr "initial_u" t
   else setattr "initial_u" initial_u) ;;;
  setattr "k" k ;;;
  (* Compute ground truth solution using Jacobi method *)
  a1 <- getattr "B_idx" ;;
  a2 <- getattr "B" ;;
  a3 <- getattr "f" ;;
  a4 <- getattr "initial_ground_truth" ;;
  a5 <- getattr "k_ground_truth" ;;
  gt <- call_jacobi_method a1 a2 a3 a4 a5 ;;
  setattr "ground_truth" gt.

(** [DirichletProblem.compute_solution] *)
Definition compute_solution (net : Net) : M (value R) :=
  a1 <- getattr "B_idx" ;;
  a2 <- getattr "B" ;;
  a3 <- getattr "f" ;;
  a4 <- getattr "initial_u" ;;
  a5 <- getattr "k" ;;
  u <- call_H_method net a1 a2 a3 a4 a5 ;;
  setattr "u" u ;;;
  getattr "u".

(** The keyword arguments of a construction call; [None] is an
    argument left out of the call.  The selector is a [str] and the
    grid size an [int], as every caller passes them (a selector that is
    not a [str] is [DirichletProblem_non_str] below); the other
    arguments are passed through as they come. *)
Record kwargs : Type := {
  kw_B_idx : option (value R);
  kw_B : option (value R);
  kw_f : option (value R);
  kw_k : option (value R);
  kw_k_ground_truth : option (value R);
  kw_initial_ground_truth : option (value R);
  kw_initial_u : option (value R);
  kw_domain_type : option string;
  kw_N : option Z
}.

(** The call with nothing passed. *)
Definition no_kwargs : kwargs :=
  {| kw_B_idx := None; kw_B := None; kw_f := None; kw_k := None;
     kw_k_ground_truth := None; kw_initial_ground_truth := None;
     kw_initial_u := None; kw_domain_type := None; kw_N := None |}.

(** Binding of the parameters: the defaults are those of the
    signature of [__init__]. *)
Definition bind_parameters (kw : kwargs) : M unit :=
  __init__
    (default VNone (kw_B_idx kw))
    (default VNone (kw_B kw))
    (default VNone (kw_f kw))
    (default (VInt 20) (kw_k kw))
    (default (VInt 1000) (kw_k_ground_truth kw))
    (default VNone (kw_initial_ground_truth kw))
    (default VNone (kw_initial_u kw))
    (default "square" (kw_domain_type kw))
    (default 16 (kw_N kw)).

(** A new object has no attribute; nothing has been called yet. *)
Definition fresh (g : Rng) : world R Rng Net :=
  {| self := ∅; rng := g; trace := [] |}.

(** The expression [DirichletProblem(...)]: allocate, then run
    [__init__] on the new object.  The caller gets the object when
    the result is [Ok]. *)
Definition DirichletProblem (kw : kwargs) (g : Rng)
    : result unit * world R Rng Net :=
  bind_parameters kw (fresh g).

End DirichletProblem.

Arguments kwargs : clear implicits.

(** ** The numerical engine

    [nnpde/geometries.py], [nnpde/iterative_methods.py] and
    [nnpde/utils/misc.py] are imported by [problems.py] but are not
    among the sources at hand; what follows is their behaviour as the
    specification describes it (§4.1 to §4.3, §7). *)

Section Engine.
Context {R : Type} `{Scalar R}.

Definition cell {A} (g : grid A) (i j : nat) : option A :=
  g !! i ≫= (λ row, row !! j).

Definition tabulate {A} (n : nat) (fn : nat → nat → A) : grid A :=
  (λ i, fn i <$> seq 0 n) <$> seq 0 n.

(** [n] rows of [n] entries each. *)
Definition has_shape {A} (n : nat) (g : grid A) : bool :=
  (length g =? n)%nat && forallb (λ row, (length row =? n)%nat) g.

(** Modelled from the spec: the boundary-enforcement step shared by
    both solvers (§4.2 step 2, §4.3 step 2): every masked cell takes
    the entry of the boundary values, every other cell is kept. *)
Definition reset_row (m : list bool) (b u : list R) : list R :=
  zip_with (λ (c : bool) (p : R * R), if c then p.1 else p.2) m (zip b u).

(** Modelled from the spec: the same step on a whole field, row by row
    ([iterative_methods.py] is not among the sources). *)
Definition reset_boundary (mask : grid bool) (B u : grid R) : grid R :=
  zip_with (λ m (p : list R * list R), reset_row m p.1 p.2) mask (zip B u).

Section Stencil.
(** The grid spacing squared, and the value read for a neighbour
    that lies outside the grid (§9 leaves that policy open; with
    the border masked, as in both geometries, it is never seen). *)
Variables h2 ghost : R.

(** Modelled from the spec: the value of a neighbour, [ghost] off the
    grid (the neighbour policy of §9, left open there). *)
Definition neighbour (u : grid R) (i j : Z) : R :=
  if (i <? 0) || (j <? 0) then ghost
  else default ghost (cell u (Z.to_nat i) (Z.to_nat j)).

(** Modelled from the spec: the four-neighbour update of the
    Relaxation Solver (§4.2 step 1), read off the previous field:
    the average of the four axis neighbours minus the right-hand
    side scaled by the grid spacing squared. *)
Definition stencil (f u : grid R) : grid R :=
  imap (λ i row,
    imap (λ j _,
      let zi := Z.of_nat i in
      let zj := Z.of_nat j in
      s_sub
        (s_quarter
           (s_add (s_add (neighbour u (zi - 1) zj) (neighbour u (zi + 1) zj))
                  (s_add (neighbour u zi (zj - 1)) (neighbour u zi (zj + 1)))))
        (s_mul h2 (default s_zero (cell f i j)))) row) u.

(** Modelled from the spec: one iteration of the Relaxation Solver
    (§4.2, steps 1 to 3).  Fields that disagree in shape are a
    [ShapeMismatch], found here, at first use (§7). *)
Definition jacobi_step (mask : grid bool) (B f u : grid R)
    : result (grid R) :=
  let n := length mask in
  if has_shape n mask && has_shape n B && has_shape n f && has_shape n u
  then Ok (reset_boundary mask B (stencil f u))
  else Err ShapeMismatch.
End Stencil.

(** Modelled from the spec: repeat a step exactly [k] times, with no
    convergence check (§4.2, §4.3); a failed step ends the call (§7). *)
Fixpoint iterate (k : nat) (step : grid R → result (grid R)) (u : grid R)
    : result (grid R) :=
  match k with
  | O => Ok u
  | S k' =>
      match step u with
      | Ok u' => iterate k' step u'
      | Err e => Err e
      end
  end.

(** Modelled from the spec: the Relaxation Solver
    [solve(mask, boundaryValues, rhs, initialField, iterations)]
    of §4.2, which stands for [iterative_methods.jacobi_method]. *)
Definition solve (h2 ghost : R) (mask : grid bool) (B f u0 : grid R)
    (iterations : nat) : result (grid R) :=
  iterate iterations (jacobi_step h2 ghost mask B f) u0.

(** Modelled from the spec: one iteration of the Hybrid Solver (§4.3,
    steps 1 to 3): the operator proposes the next field, then the
    boundary is enforced here.  A candidate of the wrong shape is an
    [OperatorContractViolation] (§7). *)
Definition hybrid_step (op : grid R → result (grid R))
    (mask : grid bool) (B u : grid R) : result (grid R) :=
  let n := length mask in
  match op u with
  | Err e => Err e
  | Ok cand =>
      if negb (has_shape n mask && has_shape n B) then Err ShapeMismatch
      else if negb (has_shape n cand) then Err OperatorContractViolation
      else Ok (reset_boundary mask B cand)
  end.

(** Modelled from the spec: the Hybrid Solver
    [solveHybrid(externalOperator, mask, boundaryValues, rhs,
    initialField, iterations)] of §4.3, which stands for
    [iterative_methods.H_method]. *)
Definition solveHybrid (op : grid R → result (grid R))
    (mask : grid bool) (B f u0 : grid R) (iterations : nat)
    : result (grid R) :=
  iterate iterations (hybrid_step op mask B) u0.

(** Modelled from the spec: the Geometry Generator of §4.1
    ([geometries.py] is not among the sources).  The square marks the
    outer perimeter; the L shape marks the perimeter and one quadrant
    (here the one with the largest indices).  The numbers along the
    boundary are a convention [bval]; cells off the mask hold zero. *)
Definition on_perimeter (n i j : nat) : bool :=
  (i =? 0)%nat || (j =? 0)%nat || (S i =? n)%nat || (S j =? n)%nat.

(** Modelled from the spec: the notch of the L shape (§4.1). *)
Definition in_notch (n i j : nat) : bool :=
  (n `div` 2 <=? i)%nat && (n `div` 2 <=? j)%nat.

(** Modelled from the spec: the mask of the "square" variant (§4.1). *)
Definition square_mask (n : nat) : grid bool :=
  tabulate n (on_perimeter n).

(** Modelled from the spec: the mask of the "l_shape" variant (§4.1). *)
Definition l_shape_mask (n : nat) : grid bool :=
  tabulate n (λ i j, on_perimeter n i j || in_notch n i j).

(** Modelled from the spec: the boundary values, zero off the mask
    (§4.1). *)
Definition boundary_values (bval : nat → nat → R) (mask : grid bool)
    : grid R :=
  imap (λ i row, imap (λ j (c : bool), if c then bval i j else s_zero) row)
       mask.
End Engine.

(** ** The engine behind the interface [problems.py] calls

    The solvers above work on grids; the program hands them tensors of
    shape [1, 1, N, N] and Python integers. *)

Definition and_then {A B} (r : result A) (k : A → result B) : result B :=
  match r with
  | Ok a => k a
  | Err e => Err e
  end.

Section Reference.
Context {R : Type} `{Scalar R}.

Definition as_grid (v : value R) : result (grid R) :=
  match v with
  | VTensor [[g]] => Ok g
  | VTensor _ => Err ShapeMismatch
  | _ => Err (TypeError "expected a tensor")
  end.

Definition as_mask (v : value R) : result (grid bool) :=
  match v with
  | VMask [[m]] => Ok m
  | VMask _ => Err ShapeMismatch
  | _ => Err (TypeError "expected a mask")
  end.

(** [range(k)] is empty for a negative [k]. *)
Definition as_count (v : value R) : result nat :=
  match v with
  | VInt k => Ok (Z.to_nat k)
  | _ => Err (TypeError "expected an integer")
  end.

Definition of_grid (g : grid R) : value R := VTensor [[g]].


Variables h2 ghost : R.
Variable bval : nat → nat → R.
Variable sample : nat → nat → nat → R.

(** Modelled from the spec: [iterative_methods.jacobi_method], the
    Relaxation Solver of §4.2 on the program's tensors. *)
Definition ref_jacobi_method (B_idx B f initial_u k : value R)
    : result (value R) :=
  and_then (as_mask B_idx) (λ m,
  and_then (as_grid B) (λ b,
  and_then (as_grid f) (λ rhs,
  and_then (as_grid initial_u) (λ u0,
  and_then (as_count k) (λ n,
  and_then (solve h2 ghost m b rhs u0 n) (λ u, Ok (of_grid u))))))).

(** Modelled from the spec: [iterative_methods.H_method], the Hybrid
    Solver of §4.3 on the program's tensors. *)
Definition ref_H_method (net : grid R → result (grid R))
    (B_idx B f initial_u k : value R) : result (value R) :=
  and_then (as_mask B_idx) (λ m,
  and_then (as_grid B) (λ b,
  and_then (as_grid f) (λ rhs,
  and_then (as_grid initial_u) (λ u0,
  and_then (as_count k) (λ n,
  and_then (solveHybrid net m b rhs u0 n) (λ u, Ok (of_grid u))))))).

(** Modelled from the spec: [geometries.square_geometry] and
    [geometries.l_shaped_geometry], the Geometry Generator of §4.1. *)
Definition ref_geometry (mask : grid bool) : result (value R * value R) :=
  Ok (VMask [[mask]], of_grid (boundary_values bval mask)).

(** Modelled from the spec: [misc.normal_distributed_tensor], a
    sampled [1, 1, N, N] field (§4.4, §6); the random source is a
    counter that every draw advances, so two draws differ. *)
Definition ref_normal_distributed_tensor (N : Z) (requires_grad : bool)
    (g : nat) : result (value R) * nat :=
  (Ok (of_grid (tabulate (Z.to_nat N) (sample g))), S g).

(** Modelled from the spec: the three modules together, as the
    interface [problems.py] calls. *)
Definition reference : collaborators R nat (grid R → result (grid R)) :=
  {| square_geometry N := ref_geometry (square_mask (Z.to_nat N));
     l_shaped_geometry N := ref_geometry (l_shape_mask (Z.to_nat N));
     normal_distributed_tensor := ref_normal_distributed_tensor;
     jacobi_method := ref_jacobi_method;
     H_method := ref_H_method |}.
End Reference.

(** ** A concrete engine over the rationals, for running examples *)

Module Demo.
#[export] Instance Q_scalar : Scalar Q :=
  {| s_zero := 0%Q;
     s_add x y := Qred (x + y);
     s_sub x y := Qred (x - y);
     s_mul x y := Qred (x * y);
     s_quarter x := Qred (x / 4) |}.

(** Boundary held at 1 (the end-to-end scenario of §8). *)
Definition ones (i j : nat) : Q := 1%Q.

Definition noise (g i j : nat) : Q :=
  inject_Z (Z.of_nat ((g + i + 2 * j) `mod` 3)%nat).

Definition engine : collaborators Q nat (grid Q → result (grid Q)) :=
  reference (1 # 9)%Q 0%Q ones noise.

(** An operator that ignores its input and answers the zero field. *)
Definition zero_net (n : nat) (u : grid Q) : result (grid Q) :=
  Ok (tabulate n (λ _ _, 0%Q)).

Definition const_grid {A} (n : nat) (x : A) : grid A := tabulate n (λ _ _, x).

(** A 4×4 square problem, every field sampled, spelt "Square". *)
Definition kw_small : kwargs Q :=
  {| kw_B_idx := None; kw_B := None; kw_f := None;
     kw_k := Some (VInt 2); kw_k_ground_truth := Some (VInt 3);
     kw_initial_ground_truth := None; kw_initial_u := None;
     kw_domain_type := Some "Square"; kw_N := Some 4 |}.

(** The object that construction leaves. *)
Definition small_problem : world Q nat (grid Q → result (grid Q)) :=
  snd (DirichletProblem engine kw_small 0%nat).

(** One call of [compute_solution] on it, and a second one after. *)
Definition small_solved :=
  compute_solution engine (zero_net 4) small_problem.

Definition small_solved_again :=
  compute_solution engine (zero_net 4) (snd small_solved).

(** A call that passes its own 2×2 mask and boundary values. *)
Definition kw_explicit_mask : kwargs Q :=
  {| kw_B_idx := Some (VMask [[square_mask 2]]);
     kw_B := Some (VTensor [[const_grid 2 1%Q]]);
     kw_f := None; kw_k := None; kw_k_ground_truth := None;
     kw_initial_ground_truth := None; kw_initial_u := None;
     kw_domain_type := None; kw_N := Some 2 |}.

(** The same call with a selector that names no geometry. *)
Definition kw_explicit_mask_circle : kwargs Q :=
  {| kw_B_idx := Some (VMask [[square_mask 2]]);
     kw_B := Some (VTensor [[const_grid 2 1%Q]]);
     kw_f := None; kw_k := None; kw_k_ground_truth := None;
     kw_initial_ground_truth := None; kw_initial_u := None;
     kw_domain_type := Some "circle"; kw_N := Some 2 |}.

(** No mask, and a selector that names no geometry. *)
Definition kw_circle : kwargs Q :=
  {| kw_B_idx := None; kw_B := None; kw_f := None; kw_k := None;
     kw_k_ground_truth := None; kw_initial_ground_truth := None;
     kw_initial_u := None; kw_domain_type := Some "circle";
     kw_N := Some 2 |}.

(** The ground truth of the 4×4 problem. *)
Definition small_ground_truth : value Q :=
  match ref_jacobi_method (1 # 9)%Q 0%Q
          (VMask [[square_mask 4]])
          (of_grid (boundary_values ones (square_mask 4)))
          (VTensor (full 1 1 4 4 0%Q))
          (of_grid (tabulate 4 (noise 0))) (VInt 3) with
  | Ok v => v
  | Err _ => VNone
  end.




End Demo.

(** ** The same engine on fixed-point entries *)

Module Demo2.
(** Fixed-point entries: integers, the quarter rounded down. *)
#[export] Instance Z_scalar : Scalar Z :=
  {| s_zero := 0; s_add := Z.add; s_sub := Z.sub; s_mul := Z.mul;
     s_quarter x := x / 4 |}.

(** The same engine on fixed-point entries, the boundary held at 1024:
    cheap enough to run the thousand iterations of the default call. *)
Definition fixed_engine : collaborators Z nat (grid Z → result (grid Z)) :=
  reference 0 0 (λ _ _, 1024)
    (λ g i j, Z.of_nat ((g + i + 2 * j) `mod` 3)%nat * 512).

(** What [DirichletProblem()] leaves, nothing passed. *)
Definition default_problem : world Z nat (grid Z → result (grid Z)) :=
  snd (DirichletProblem fixed_engine no_kwargs 0%nat).
End Demo2.

(** ** Engines and calls for the edge cases *)

Module Demo4.
Import Demo.
(** The engine with a geometry module that refuses every size. *)
Definition no_geometry_engine
    : collaborators Q nat (grid Q → result (grid Q)) :=
  {| square_geometry N := Err (RuntimeError "no geometry");
     l_shaped_geometry N := Err (RuntimeError "no geometry");
     normal_distributed_tensor := normal_distributed_tensor engine;
     jacobi_method := jacobi_method engine;
     H_method := H_method engine |}.

(** An operator that answers one cell, whatever it gets. *)
Definition one_cell_net (u : grid Q) : result (grid Q) := Ok [[0%Q]].

(** A call with that operator, after a call that succeeded. *)
Definition small_failed :=
  compute_solution engine one_cell_net (snd small_solved).

(** The field the successful call returned. *)
Definition small_u : value Q :=
  match fst small_solved with
  | Ok v => v
  | Err _ => VNone
  end.

(** A call that passes boundary values, and no mask. *)
Definition kw_values_only : kwargs Q :=
  {| kw_B_idx := None; kw_B := Some (of_grid (const_grid 4 7%Q));
     kw_f := None; kw_k := Some (VInt 2); kw_k_ground_truth := Some (VInt 3);
     kw_initial_ground_truth := None; kw_initial_u := None;
     kw_domain_type := Some "l_shape"; kw_N := Some 4 |}.
End Demo4.

(** ** The instance a construction leaves behind, and its life *)

Section Instances.
Context {R : Type} `{Scalar R} {Rng Net : Type}.
Variable ext : collaborators R Rng Net.

(** The attributes [__init__] has assigned when it calls the Jacobi
    solver, in the order it assigns them, over the attributes [s]
    already there ... *)
Definition assigned (m b rhs kgt igt iu k : value R)
    (s : gmap string (value R)) : gmap string (value R) :=
  <["k" := k]>
    (<["initial_u" := iu]>
      (<["_ground_truth" := VNone]>
        (<["k_ground_truth" := kgt]>
          (<["initial_ground_truth" := igt]>
            (<["f" := rhs]>
              (<["B" := b]>
                (<["B_idx" := m]> s))))))).

(** ... and when it returns. *)
Definition built (m b rhs kgt igt iu k gt : value R)
    (s : gmap string (value R)) : gmap string (value R) :=
  <["ground_truth" := gt]> (assigned m b rhs kgt igt iu k s).

(** [evolves w w']: [w'] is reached from [w] by calls of
    [compute_solution], with whatever operators, failed calls
    included. *)
Inductive evolves (w : world R Rng Net) : world R Rng Net → Prop :=
| evolves_refl : evolves w w
| evolves_step w1 net r w2 :
    evolves w w1 →
    compute_solution ext net w1 = (r, w2) →
    evolves w w2.

Definition is_geometry_call (e : event R Net) : bool :=
  match e with
  | EvSquareGeometry _ | EvLShapedGeometry _ => true
  | _ => false
  end.

Definition is_jacobi_call (e : event R Net) : bool :=
  match e with
  | EvJacobi _ _ _ _ _ => true
  | _ => false
  end.
(** A draw from the random source. *)
Definition is_sample_call (e : event R Net) : bool :=
  match e with
  | EvNormalTensor _ _ => true
  | _ => false
  end.
End Instances.

(** ** What a run of the constructor resolves its arguments to *)

Section Resolution.
Context {R : Type} `{Scalar R} {Rng Net : Type}.
Variable ext : collaborators R Rng Net.

(** The generator the selector stands for, with the call it makes. *)
Definition chosen_geometry (domain_type : string) (N : Z)
    (ev : event R Net) (r : result (value R * value R)) : Prop :=
  (lower domain_type = "square" ∧
     ev = EvSquareGeometry N ∧ r = square_geometry ext N) ∨
  (lower domain_type = "l_shape" ∧
     ev = EvLShapedGeometry N ∧ r = l_shaped_geometry ext N).

(** The right-hand side that gets stored, with the calls made for it. *)
Definition resolved_rhs (f : value R) (N : Z)
    (rhs : value R) (evs : list (event R Net)) : Prop :=
  if is_None f
  then (∃ t, torch_zeros 1 1 N N = Ok t ∧ rhs = VTensor t) ∧
       evs = [EvZeros 1 1 N N]
  else rhs = f ∧ evs = [].

(** An initial field that gets stored: sampled when left out. *)
Definition resolved_initial (x : value R) (N : Z) (requires_grad : bool)
    (g : Rng) (x' : value R) (g' : Rng) (evs : list (event R Net)) : Prop :=
  if is_None x
  then normal_distributed_tensor ext N requires_grad g = (Ok x', g') ∧
       evs = [EvNormalTensor N requires_grad]
  else x' = x ∧ g' = g ∧ evs = [].

(** Calls are only ever added to the record of calls. *)
Definition grows {A} (m : M R Rng Net A) : Prop :=
  ∀ w r w', m w = (r, w') → ∃ tl, trace w' = (trace w ++ tl)%list.

(** ... and [ev] is the first one added. *)
Definition emits_first {A} (ev : event R Net) (m : M R Rng Net A) : Prop :=
  ∀ w r w', m w = (r, w') → ∃ tl, trace w' = (trace w ++ ev :: tl)%list.

End Resolution.

(** * Properties *)

(** Symbolic execution: unfold the monad and the body of the methods,
    nothing else (the attribute maps stay folded). *)
Ltac run :=
  cbv beta iota zeta delta
    [__init__ compute_solution bind_parameters DirichletProblem
     call_square_geometry call_l_shaped_geometry call_torch_zeros
     call_normal_distributed_tensor call_jacobi_method call_H_method
     bind ret raise lift emit setattr getattr draw self rng trace fresh] in *.

Ltac run_all := repeat (case_match; run; try discriminate; simplify_eq).

Ltac look :=
  repeat match goal with
  | H : _ !! _ = Some _ |- _ =>
      first [ rewrite lookup_insert_eq in H
            | rewrite lookup_insert_ne in H by done ]
  | H : Some _ = Some _ |- _ => injection H as <-
  | H : ∅ !! _ = Some _ |- _ => rewrite lookup_empty in H; discriminate H
  end.

Ltac nonefacts :=
  repeat match goal with
  | Hf : is_None ?x = _ |- context [is_None ?x] => rewrite Hf
  end.

(** ** Grids and the two solvers *)

Section Grids.
Context {R : Type} `{Scalar R}.

Lemma has_shape_spec {A} n (g : grid A) :
  has_shape n g = true ↔
  length g = n ∧ Forall (λ row, length row = n) g.
Proof.
  unfold has_shape. rewrite andb_true_iff, Nat.eqb_eq, forallb_forall.
  rewrite Forall_forall. setoid_rewrite Nat.eqb_eq.
  split; intros [? Hrows]; (split; [done|]); intros row Hin; apply Hrows.
  - by apply list_elem_of_In.
  - by apply list_elem_of_In.
Qed.

Lemma has_shape_cell {A} n (g : grid A) i j :
  has_shape n g = true → (is_Some (cell g i j) ↔ (i < n ∧ j < n)%nat).
Proof.
  rewrite has_shape_spec. intros [Hlen Hrows]. unfold cell.
  rewrite Forall_lookup in Hrows. split.
  - intros [x Hx]. destruct (g !! i) as [row|] eqn:Hrow; [|done].
    simpl in Hx. pose proof (Hrows _ _ Hrow) as Hl.
    apply lookup_lt_Some in Hrow, Hx. lia.
  - intros [Hi Hj]. destruct (lookup_lt_is_Some_2 g i) as [row Hrow]; [lia|].
    rewrite Hrow. simpl. apply lookup_lt_is_Some_2.
    rewrite (Hrows _ _ Hrow). lia.
Qed.

Lemma cell_reset_boundary (mask : grid bool) (B u : grid R) i j :
  cell (reset_boundary mask B u) i j =
    c ← cell mask i j; b ← cell B i j; x ← cell u i j;
    Some (if c : bool then b else x).
Proof.
  unfold cell, reset_boundary, reset_row.
  rewrite !lookup_zip_with.
  destruct (mask !! i) as [mrow|]; simpl; [|done].
  destruct (B !! i) as [brow|]; simpl; [|by destruct (mrow !! j)].
  destruct (u !! i) as [urow|]; simpl.
  - rewrite !lookup_zip_with.
    destruct (mrow !! j); simpl; [|done].
    destruct (brow !! j); simpl; [|done].
    by destruct (urow !! j).
  - destruct (mrow !! j); simpl; [|done]. by destruct (brow !! j).
Qed.

Lemma has_shape_reset_boundary n (mask : grid bool) (B u : grid R) :
  has_shape n mask = true → has_shape n B = true → has_shape n u = true →
  has_shape n (reset_boundary mask B u) = true.
Proof.
  rewrite !has_shape_spec. intros [Lm Rm] [Lb Rb] [Lu Ru].
  unfold reset_boundary, reset_row. split.
  - rewrite length_zip_with, length_zip. lia.
  - rewrite Forall_lookup. intros i row Hrow.
    apply lookup_zip_with_Some in Hrow as (mrow & [brow urow] & -> & Hm & Hz).
    apply lookup_zip_Some in Hz as [Hb Hu]. simpl.
    rewrite Forall_lookup in Rm; rewrite Forall_lookup in Rb;
    rewrite Forall_lookup in Ru.
    rewrite length_zip_with, length_zip.
    rewrite (Rm _ _ Hm), (Rb _ _ Hb), (Ru _ _ Hu). lia.
Qed.

Lemma has_shape_stencil h2 ghost n (f u : grid R) :
  has_shape n u = true → has_shape n (stencil h2 ghost f u) = true.
Proof.
  rewrite !has_shape_spec. intros [Lu Ru]. unfold stencil. split.
  - by rewrite length_imap.
  - rewrite Forall_lookup. intros i row Hrow.
    apply list_lookup_imap_Some in Hrow as (urow & Hu & ->).
    rewrite length_imap. rewrite Forall_lookup in Ru. by apply (Ru _ _ Hu).
Qed.

(** What one enforcement leaves on a masked cell. *)
Lemma reset_boundary_masked n (mask : grid bool) (B u : grid R) i j :
  has_shape n mask = true → has_shape n B = true → has_shape n u = true →
  cell mask i j = Some true →
  is_Some (cell B i j) ∧ cell (reset_boundary mask B u) i j = cell B i j.
Proof.
  intros Sm Sb Su Hm.
  assert (Hij : (i < n ∧ j < n)%nat)
    by (apply (has_shape_cell n mask); [done | by rewrite Hm]).
  destruct (proj2 (has_shape_cell n B i j Sb) Hij) as [b Hb].
  destruct (proj2 (has_shape_cell n u i j Su) Hij) as [x Hx].
  split; [by rewrite Hb|].
  rewrite cell_reset_boundary, Hm, Hb, Hx. reflexivity.
Qed.



End Grids.

Section Solvers.
Context {R : Type} `{Scalar R}.

Lemma jacobi_step_inv h2 ghost (mask : grid bool) (B f u u' : grid R) :
  jacobi_step h2 ghost mask B f u = Ok u' →
  has_shape (length mask) mask = true ∧ has_shape (length mask) B = true ∧
  has_shape (length mask) f = true ∧ has_shape (length mask) u = true ∧
  u' = reset_boundary mask B (stencil h2 ghost f u).
Proof.
  unfold jacobi_step. cbv zeta. intros Hstep.
  destruct (has_shape (length mask) mask), (has_shape (length mask) B),
    (has_shape (length mask) f), (has_shape (length mask) u);
    simplify_eq/=; done.
Qed.

Lemma hybrid_step_inv op (mask : grid bool) (B u u' : grid R) :
  hybrid_step op mask B u = Ok u' →
  ∃ cand, op u = Ok cand ∧
    has_shape (length mask) mask = true ∧
    has_shape (length mask) B = true ∧
    has_shape (length mask) cand = true ∧
    u' = reset_boundary mask B cand.
Proof.
  unfold hybrid_step. cbv zeta. intros Hstep.
  destruct (op u) as [cand|]; [|done]. exists cand.
  destruct (has_shape (length mask) mask), (has_shape (length mask) B),
    (has_shape (length mask) cand); simplify_eq/=; done.
Qed.

(** A run of at least one iteration ends with a step. *)
Lemma iterate_last k step (u0 u : grid R) :
  (1 ≤ k)%nat → iterate k step u0 = Ok u → ∃ u', step u' = Ok u.
Proof.
  revert u0. induction k as [|k IH]; intros u0 Hk Hrun; [lia|].
  simpl in Hrun. destruct (step u0) as [u1|] eqn:Hstep; [|done].
  destruct k as [|k'].
  - simpl in Hrun. exists u0. congruence.
  - apply (IH u1); [lia | done].
Qed.

(** The first [a] iterations of a run are a run. *)
Lemma iterate_add a b step (u0 : grid R) :
  iterate (a + b) step u0 = and_then (iterate a step u0) (iterate b step).
Proof.
  revert u0. induction a as [|a IH]; intros u0; simpl; [done|].
  destruct (step u0); [apply IH | done].
Qed.

Lemma iterate_prefix k t step (u0 u : grid R) :
  (t ≤ k)%nat → iterate k step u0 = Ok u → ∃ ut, iterate t step u0 = Ok ut.
Proof.
  intros Ht Hrun. replace k with (t + (k - t))%nat in Hrun by lia.
  rewrite iterate_add in Hrun.
  destruct (iterate t step u0) as [ut|]; [by exists ut | done].
Qed.

(** Steps that keep an invariant can be repeated at will. *)
Lemma iterate_total (P : grid R → Prop) k step (u0 : grid R) :
  (∀ u, P u → ∃ u', step u = Ok u' ∧ P u') →
  P u0 → ∃ u, iterate k step u0 = Ok u ∧ P u.
Proof.
  intros Hstep. revert u0. induction k as [|k IH]; intros u0 HP; simpl.
  - by exists u0.
  - destruct (Hstep u0 HP) as (u1 & -> & HP1). by apply IH.
Qed.

Lemma jacobi_step_masked h2 ghost (mask : grid bool) (B f u u' : grid R) i j :
  jacobi_step h2 ghost mask B f u = Ok u' →
  cell mask i j = Some true →
  is_Some (cell B i j) ∧ cell u' i j = cell B i j.
Proof.
  intros Hstep Hm. apply jacobi_step_inv in Hstep as (Sm & Sb & Sf & Su & ->).
  eapply reset_boundary_masked; eauto using has_shape_stencil.
Qed.

Lemma hybrid_step_masked op (mask : grid bool) (B u u' : grid R) i j :
  hybrid_step op mask B u = Ok u' →
  cell mask i j = Some true →
  is_Some (cell B i j) ∧ cell u' i j = cell B i j.
Proof.
  intros Hstep Hm.
  apply hybrid_step_inv in Hstep as (cand & _ & Sm & Sb & Sc & ->).
  eapply reset_boundary_masked; eauto.
Qed.

Lemma jacobi_step_total h2 ghost (mask : grid bool) (B f u : grid R) :
  has_shape (length mask) mask = true → has_shape (length mask) B = true →
  has_shape (length mask) f = true → has_shape (length mask) u = true →
  ∃ u', jacobi_step h2 ghost mask B f u = Ok u' ∧
        has_shape (length mask) u' = true.
Proof.
  intros Sm Sb Sf Su. unfold jacobi_step. cbv zeta.
  rewrite Sm, Sb, Sf, Su. simpl. eexists; split; [done|].
  apply has_shape_reset_boundary; auto using has_shape_stencil.
Qed.

Lemma hybrid_step_total op (mask : grid bool) (B u : grid R) :
  has_shape (length mask) mask = true → has_shape (length mask) B = true →
  (∀ v, has_shape (length mask) v = true →
        ∃ v', op v = Ok v' ∧ has_shape (length mask) v' = true) →
  has_shape (length mask) u = true →
  ∃ u', hybrid_step op mask B u = Ok u' ∧
        has_shape (length mask) u' = true.
Proof.
  intros Sm Sb Hop Su. unfold hybrid_step. cbv zeta.
  destruct (Hop u Su) as (cand & -> & Sc). rewrite Sm, Sb, Sc. simpl.
  eexists; split; [done|]. by apply has_shape_reset_boundary.
Qed.
End Solvers.

Section Facts.
Context {R : Type} `{Scalar R} {Rng Net : Type}.
Variable ext : collaborators R Rng Net.

(** A successful run of the constructor, read backwards. *)
Lemma init_ok_inv B_idx B f k kgt igt iu dt N g w :
  __init__ ext B_idx B f k kgt igt iu dt N (fresh g) = (Ok tt, w) →
  is_None B_idx = true ∧
  ∃ ev m b rhs evf igt' g1 evg iu' g2 evu gt,
    chosen_geometry ext dt N ev (Ok (m, b)) ∧
    resolved_rhs f N rhs evf ∧
    resolved_initial ext igt N false g igt' g1 evg ∧
    resolved_initial ext iu N true g1 iu' g2 evu ∧
    jacobi_method ext m b rhs igt' kgt = Ok gt ∧
    w = {| self := built m b rhs kgt igt' iu' k gt ∅; rng := g2;
           trace := [ev] ++ evf ++ evg ++ evu ++
                    [EvJacobi m b rhs igt' kgt] |}.
Proof.
  intros Hrun. run. run_all.
  all: try (exfalso; look; fail).
  all: look.
  all: split; [done|].
  all: do 12 eexists; split_and!;
    [ first [ left; split_and!;
              [by apply String.eqb_eq | reflexivity | symmetry; eassumption]
            | right; split_and!;
              [by apply String.eqb_eq | reflexivity | symmetry; eassumption] ]
    | unfold resolved_rhs; nonefacts; eauto
    | unfold resolved_initial; nonefacts; eauto
    | unfold resolved_initial; nonefacts; eauto
    | eassumption
    | unfold built, assigned; simpl; rewrite <- ?app_assoc; reflexivity ].
Qed.

(** ... and forwards: with the arguments resolved, the outcome is
    the outcome of the Jacobi solver. *)
Lemma init_run B_idx B f k kgt igt iu dt N g
    ev m b rhs (evf : list (event R Net)) igt' g1 evg iu' g2 evu :
  is_None B_idx = true →
  chosen_geometry ext dt N ev (Ok (m, b)) →
  resolved_rhs f N rhs evf →
  resolved_initial ext igt N false g igt' g1 evg →
  resolved_initial ext iu N true g1 iu' g2 evu →
  __init__ ext B_idx B f k kgt igt iu dt N (fresh g) =
    let tr :=
      ([ev] ++ evf ++ evg ++ evu ++ [EvJacobi m b rhs igt' kgt])%list in
    match jacobi_method ext m b rhs igt' kgt with
    | Ok gt =>
        (Ok tt, {| self := built m b rhs kgt igt' iu' k gt ∅; rng := g2;
                   trace := tr |})
    | Err e =>
        (Err e, {| self := assigned m b rhs kgt igt' iu' k ∅; rng := g2;
                   trace := tr |})
    end.
Proof.
  intros HB Hgeo Hf Hg Hu.
  unfold resolved_rhs, resolved_initial in *.
  assert (Hsel :
    (lower dt =? "square")%string = true ∧ ev = EvSquareGeometry N ∧
      square_geometry ext N = Ok (m, b)
    ∨ (lower dt =? "square")%string = false ∧
      (lower dt =? "l_shape")%string = true ∧ ev = EvLShapedGeometry N ∧
      l_shaped_geometry ext N = Ok (m, b)).
  { destruct Hgeo as [(E & -> & ?)|(E & -> & ?)]; rewrite E;
      [left|right]; auto. }
  clear Hgeo.
  run. rewrite HB.
  destruct Hsel as [(-> & -> & ->)|(-> & -> & -> & ->)];
  destruct (is_None f); destruct (is_None igt); destruct (is_None iu);
  destruct_and?;
  repeat match goal with
         | Hx : ∃ _, _ |- _ => destruct Hx as (? & ? & ->)
         end; subst.
  all: repeat (progress (run;
         repeat match goal with
                | Hx : ?l = _ |- context [?l] => rewrite Hx
                end;
         repeat first [ rewrite lookup_insert_eq
                      | rewrite lookup_insert_ne by done ])).
  all: match goal with
       | |- context [jacobi_method ?e ?a1 ?a2 ?a3 ?a4 ?a5] =>
           destruct (jacobi_method e a1 a2 a3 a4 a5)
       end.
  all: unfold built, assigned; simpl app; rewrite <- ?app_assoc;
    reflexivity.
Qed.

Lemma init_ok_intro B_idx B f k kgt igt iu dt N g
    ev m b rhs evf igt' g1 evg iu' g2 evu gt :
  is_None B_idx = true →
  chosen_geometry ext dt N ev (Ok (m, b)) →
  resolved_rhs f N rhs evf →
  resolved_initial ext igt N false g igt' g1 evg →
  resolved_initial ext iu N true g1 iu' g2 evu →
  jacobi_method ext m b rhs igt' kgt = Ok gt →
  __init__ ext B_idx B f k kgt igt iu dt N (fresh g) =
    (Ok tt, {| self := built m b rhs kgt igt' iu' k gt ∅; rng := g2;
               trace := [ev] ++ evf ++ evg ++ evu ++
                        [EvJacobi m b rhs igt' kgt] |}).
Proof.
  intros HB Hgeo Hf Hg Hu Hj.
  rewrite (init_run B_idx B f k kgt igt iu dt N g ev m b rhs evf
             igt' g1 evg iu' g2 evu HB Hgeo Hf Hg Hu).
  cbv zeta. by rewrite Hj.
Qed.

(** The selector is checked first, and only when no mask is passed. *)
Lemma init_unknown_selector B_idx B f k kgt igt iu dt N w0 :
  is_None B_idx = true →
  lower dt ≠ "square" → lower dt ≠ "l_shape" →
  __init__ ext B_idx B f k kgt igt iu dt N w0 =
    (Err (ValueError no_such_domain_type), w0).
Proof.
  intros HB H1 H2. run. rewrite HB.
  apply String.eqb_neq in H1, H2. rewrite H1, H2. reflexivity.
Qed.

(** A mask passed to the constructor is never assigned to the object:
    the run ends in an error, with neither [B_idx] nor [B] set. *)
Lemma init_explicit_mask B_idx B f k kgt igt iu dt N g :
  is_None B_idx = false →
  ∃ e w,
    __init__ ext B_idx B f k kgt igt iu dt N (fresh g) = (Err e, w) ∧
    self w !! "B_idx" = None ∧ self w !! "B" = None ∧
    Forall (λ ev, is_geometry_call ev = false ∧ is_jacobi_call ev = false)
           (trace w).
Proof.
  intros HB. run. rewrite HB. 
  run_all.
  all: try (exfalso; look; fail).
  all: do 2 eexists; split_and!; [reflexivity | | | ]; cbv beta iota.
  all: try (rewrite ?lookup_insert_ne by done; apply lookup_empty).
  all: simpl app; repeat constructor.
Qed.

(** With every collaborator answering, the error is the missing
    attribute. *)
Lemma init_explicit_mask_attribute_error B_idx B f k kgt igt iu dt N g
    rhs evf igt' g1 evg iu' g2 evu :
  is_None B_idx = false →
  resolved_rhs f N rhs evf →
  resolved_initial ext igt N false g igt' g1 evg →
  resolved_initial ext iu N true g1 iu' g2 evu →
  __init__ ext B_idx B f k kgt igt iu dt N (fresh g) =
    (Err (AttributeError "B_idx"),
     {| self := <["k" := k]> (<["initial_u" := iu']>
                 (<["_ground_truth" := VNone]> (<["k_ground_truth" := kgt]>
                   (<["initial_ground_truth" := igt']> (<["f" := rhs]> ∅)))));
        rng := g2; trace := evf ++ evg ++ evu |}).
Proof.
  intros HB Hf Hg Hu. unfold resolved_rhs, resolved_initial in *.
  run. rewrite HB.
  destruct (is_None f); destruct (is_None igt); destruct (is_None iu);
  destruct_and?;
  repeat match goal with
         | Hx : ∃ _, _ |- _ => destruct Hx as (? & ? & ->)
         end; subst.
  all: repeat (progress (run;
         repeat match goal with
                | Hx : ?l = _ |- context [?l] => rewrite Hx
                end;
         rewrite ?lookup_insert_ne by done; rewrite ?lookup_empty)).
  all: simpl; reflexivity.
Qed.

(** [compute_solution] in closed form, on an object that has the five
    attributes it reads. *)
Lemma compute_solution_run net w m b rhs u0 k :
  self w !! "B_idx" = Some m → self w !! "B" = Some b →
  self w !! "f" = Some rhs → self w !! "initial_u" = Some u0 →
  self w !! "k" = Some k →
  compute_solution ext net w =
    match H_method ext net m b rhs u0 k with
    | Ok u =>
        (Ok u, {| self := <["u" := u]> (self w); rng := rng w;
                  trace := trace w ++ [EvH net m b rhs u0 k] |})
    | Err e =>
        (Err e, {| self := self w; rng := rng w;
                   trace := trace w ++ [EvH net m b rhs u0 k] |})
    end.
Proof.
  intros H1 H2 H3 H4 H5. destruct w as [s g t]. run.
  rewrite H1, H2, H3, H4, H5.
  destruct (H_method ext net m b rhs u0 k); [|reflexivity].
  by rewrite lookup_insert_eq.
Qed.

(** Whatever the outcome, [compute_solution] writes no attribute but
    [u], and leaves the random source alone. *)
Lemma compute_solution_frame net w r w' :
  compute_solution ext net w = (r, w') →
  rng w' = rng w ∧
  ∀ name, name ≠ "u" → self w' !! name = self w !! name.
Proof.
  destruct w as [s g t]. intros Hrun. run. run_all.
  all: split; [reflexivity|]; intros name Hne; cbv beta iota;
    by rewrite ?lookup_insert_ne.
Qed.

(** So does any sequence of calls. *)
Lemma evolves_frame w0 w :
  evolves ext w0 w →
  rng w = rng w0 ∧ ∀ name, name ≠ "u" → self w !! name = self w0 !! name.
Proof.
  induction 1 as [|w1 net r w2 _ [IHg IHs] Hrun]; [done|].
  apply compute_solution_frame in Hrun as [Hg Hs]. split; [congruence|].
  intros name Hne. rewrite Hs by done. by apply IHs.
Qed.

(** A constructed object carries every attribute of the instance. *)
Lemma constructed_attributes kw g w0 :
  DirichletProblem ext kw g = (Ok tt, w0) →
  ∃ m b rhs kgt igt iu k gt,
    self w0 = built m b rhs kgt igt iu k gt ∅ ∧
    jacobi_method ext m b rhs igt kgt = Ok gt ∧
    kgt = default (VInt 1000) (kw_k_ground_truth kw) ∧
    k = default (VInt 20) (kw_k kw).
Proof.
  unfold DirichletProblem, bind_parameters. intros Hrun.
  apply init_ok_inv in Hrun
    as (_ & ev & m & b & rhs & evf & igt & g1 & evg & iu & g2 & evu & gt &
        _ & _ & _ & _ & Hj & ->).
  by eexists m, b, rhs, _, igt, iu, _, gt.
Qed.

Lemma built_lookup m b rhs kgt igt iu k gt (s : gmap string (value R)) :
  built m b rhs kgt igt iu k gt s !! "B_idx" = Some m ∧
  built m b rhs kgt igt iu k gt s !! "B" = Some b ∧
  built m b rhs kgt igt iu k gt s !! "f" = Some rhs ∧
  built m b rhs kgt igt iu k gt s !! "initial_ground_truth" = Some igt ∧
  built m b rhs kgt igt iu k gt s !! "k_ground_truth" = Some kgt ∧
  built m b rhs kgt igt iu k gt s !! "initial_u" = Some iu ∧
  built m b rhs kgt igt iu k gt s !! "k" = Some k ∧
  built m b rhs kgt igt iu k gt s !! "ground_truth" = Some gt.
Proof.
  unfold built, assigned. split_and!;
    repeat first [ by rewrite lookup_insert_eq
                 | rewrite lookup_insert_ne by done ].
Qed.
Lemma jacobi_calls_of_run (ev : event R Net) evf evg evu last :
  is_jacobi_call ev = false →
  Forall (λ e, is_jacobi_call e = false) evf →
  Forall (λ e, is_jacobi_call e = false) evg →
  Forall (λ e, is_jacobi_call e = false) evu →
  is_jacobi_call last = true →
  List.filter is_jacobi_call ([ev] ++ evf ++ evg ++ evu ++ [last]) = [last].
Proof.
  intros Hev Hf Hg Hu Hl.
  assert (Hnone : ∀ l : list (event R Net),
            Forall (λ e, is_jacobi_call e = false) l →
            List.filter is_jacobi_call l = []).
  { induction 1 as [|e l He _ IH]; simpl; [done|]. by rewrite He. }
  rewrite !List.filter_app. simpl. rewrite Hev, Hl.
  by rewrite (Hnone evf), (Hnone evg), (Hnone evu).
Qed.

Lemma chosen_geometry_not_jacobi dt N (ev : event R Net) r :
  chosen_geometry ext dt N ev r → is_jacobi_call ev = false.
Proof. by intros [(_ & -> & _)|(_ & -> & _)]. Qed.

Lemma resolved_rhs_not_jacobi f N rhs (evs : list (event R Net)) :
  resolved_rhs f N rhs evs → Forall (λ e, is_jacobi_call e = false) evs.
Proof.
  unfold resolved_rhs. destruct (is_None f); intros [_ ->];
    repeat constructor.
Qed.

Lemma resolved_initial_not_jacobi x N rg g x' g' (evs : list (event R Net)) :
  resolved_initial ext x N rg g x' g' evs →
  Forall (λ e, is_jacobi_call e = false) evs.
Proof.
  unfold resolved_initial. destruct (is_None x).
  - intros [_ ->]. repeat constructor.
  - intros (_ & _ & ->). constructor.
Qed.


(** The record of calls only grows. *)
Lemma grows_ret {A} (a : A) : grows (ret a : M R Rng Net A).
Proof. intros w r w' [= <- <-]. exists []. by rewrite app_nil_r. Qed.

Lemma grows_raise {A} e : grows (raise e : M R Rng Net A).
Proof. intros w r w' [= <- <-]. exists []. by rewrite app_nil_r. Qed.

Lemma grows_lift {A} (x : result A) : grows (lift x : M R Rng Net A).
Proof. intros w r w' [= <- <-]. exists []. by rewrite app_nil_r. Qed.

Lemma grows_emit ev : grows (emit ev : M R Rng Net unit).
Proof. intros w r w' [= <- <-]. by exists [ev]. Qed.

Lemma grows_setattr name v : grows (setattr name v : M R Rng Net unit).
Proof. intros w r w' [= <- <-]. exists []. by rewrite app_nil_r. Qed.

Lemma grows_getattr name : grows (getattr name : M R Rng Net (value R)).
Proof.
  intros w r w'. unfold getattr. destruct (self w !! name);
    intros [= <- <-]; exists []; by rewrite app_nil_r.
Qed.

Lemma grows_draw N rg sample :
  grows (draw N rg sample : M R Rng Net (value R)).
Proof.
  intros w r w'. unfold draw. destruct (sample N rg (rng w)).
  intros [= <- <-]. exists []. by rewrite app_nil_r.
Qed.

Lemma grows_bind {A B} (m : M R Rng Net A) (k : A → M R Rng Net B) :
  grows m → (∀ a, grows (k a)) → grows (bind m k).
Proof.
  intros Hm Hk w r w' Hrun. unfold bind in Hrun.
  destruct (m w) as [[a|e] w1] eqn:Hmw.
  - destruct (Hm _ _ _ Hmw) as [t1 E1]. destruct (Hk a _ _ _ Hrun) as [t2 E2].
    exists (t1 ++ t2)%list. by rewrite E2, E1, app_assoc.
  - simplify_eq. eauto.
Qed.

Lemma grows_if {A} (c : bool) (a b : M R Rng Net A) :
  grows a → grows b → grows (if c then a else b).
Proof. by destruct c. Qed.

Lemma emits_first_bind {A B} ev (m : M R Rng Net A) (k : A → M R Rng Net B) :
  emits_first ev m → (∀ a, grows (k a)) → emits_first ev (bind m k).
Proof.
  intros Hm Hk w r w' Hrun. unfold bind in Hrun.
  destruct (m w) as [[a|e] w1] eqn:Hmw.
  - destruct (Hm _ _ _ Hmw) as [t1 E1]. destruct (Hk a _ _ _ Hrun) as [t2 E2].
    exists (t1 ++ t2)%list. by rewrite E2, E1, <- app_assoc.
  - simplify_eq. eauto.
Qed.

Lemma emits_first_emit {B} ev (k : unit → M R Rng Net B) :
  (∀ a, grows (k a)) → emits_first ev (bind (emit ev) k).
Proof.
  intros Hk w r w' Hrun. unfold bind, emit in Hrun.
  destruct (Hk tt _ _ _ Hrun) as [tl E]. exists tl.
  rewrite E. simpl. by rewrite <- app_assoc.
Qed.

Ltac grows :=
  repeat first
    [ apply grows_bind | apply grows_if | apply grows_ret | apply grows_raise
    | apply grows_lift | apply grows_emit | apply grows_setattr
    | apply grows_getattr | apply grows_draw
    | intros [] | intro ].

(** The generator the selector names is called first, whatever
    happens next. *)
Lemma init_geometry_first B_idx B f k kgt igt iu dt N g ev r :
  is_None B_idx = true →
  chosen_geometry ext dt N ev r →
  ∃ tl, trace (snd (__init__ ext B_idx B f k kgt igt iu dt N (fresh g))) =
        ev :: tl.
Proof.
  intros HB Hgeo.
  assert (Hfirst : emits_first ev
            (__init__ ext B_idx B f k kgt igt iu dt N)).
  { unfold __init__. rewrite HB.
    apply emits_first_bind.
    - destruct Hgeo as [(E & -> & _)|(E & -> & _)]; rewrite E; simpl.
      + unfold call_square_geometry. apply emits_first_bind.
        * apply emits_first_emit. grows.
        * grows.
      + unfold call_l_shaped_geometry. apply emits_first_bind.
        * apply emits_first_emit. grows.
        * grows.
    - unfold call_torch_zeros, call_normal_distributed_tensor,
        call_jacobi_method. grows. }
  destruct (__init__ ext B_idx B f k kgt igt iu dt N (fresh g))
    as [r' w'] eqn:Hrun.
  destruct (Hfirst _ _ _ Hrun) as [tl E]. exists tl. exact E.
Qed.
Lemma no_mask_is_None kw :
  kw_B_idx kw = None ∨ kw_B_idx kw = Some VNone →
  is_None (default (@VNone R) (kw_B_idx kw)) = true.
Proof. by intros [->| ->]. Qed.

Lemma torch_zeros_inv (N : Z) (t : tensor R) :
  torch_zeros 1 1 N N = Ok t →
  0 ≤ N ∧ t = [[replicate (Z.to_nat N) (replicate (Z.to_nat N) s_zero)]].
Proof.
  unfold torch_zeros. destruct (N <? 0) eqn:HN; simpl; [done|].
  intros [= <-]. split; [by apply Z.ltb_ge|reflexivity].
Qed.

Lemma chosen_geometry_default N (ev : event R Net) r :
  chosen_geometry ext "square" N ev r →
  ev = EvSquareGeometry N ∧ r = square_geometry ext N.
Proof. by intros [(_ & -> & ->)|(? & _)]. Qed.

Lemma chosen_geometry_event dt N (ev : event R Net) r :
  chosen_geometry ext dt N ev r →
  ev = EvSquareGeometry N ∨ ev = EvLShapedGeometry N.
Proof. intros [(_ & -> & _)|(_ & -> & _)]; auto. Qed.

Lemma resolved_rhs_supplied (f : value R) N :
  is_None f = false → resolved_rhs (Net := Net) f N f [].
Proof. unfold resolved_rhs. by intros ->. Qed.

Lemma resolved_initial_supplied (x : value R) N rg g :
  is_None x = false → resolved_initial ext x N rg g x g [].
Proof. unfold resolved_initial. by intros ->. Qed.

(** With a mask passed the selector is not read. *)
Lemma init_mask_ignores_selector B_idx B f k kgt igt iu dt dt' N
    (w : world R Rng Net) :
  is_None B_idx = false →
  __init__ ext B_idx B f k kgt igt iu dt N w =
  __init__ ext B_idx B f k kgt igt iu dt' N w.
Proof. intros HB. run. rewrite HB. reflexivity. Qed.
End Facts.

(** ** The engine of the specification and the shapes it is given *)

Section ReferenceFacts.
Context {R : Type} `{Scalar R}.



Variables h2 ghost : R.
Variable bval : nat → nat → R.
Variable sample : nat → nat → nat → R.

Local Abbreviation E := (reference h2 ghost bval sample).





End ReferenceFacts.

(** * The claims of the specification *)

Section BoundaryInvariant.
Context {R : Type} `{Scalar R}.

(** The Relaxation Solver returns on fields of one shape. *)
Lemma solve_total h2 ghost (mask : grid bool) (B f u0 : grid R) k :
  has_shape (length mask) mask = true → has_shape (length mask) B = true →
  has_shape (length mask) f = true → has_shape (length mask) u0 = true →
  ∃ u, solve h2 ghost mask B f u0 k = Ok u ∧
       has_shape (length mask) u = true.
Proof.
  intros Sm Sb Sf Su. unfold solve.
  apply (iterate_total (λ u, has_shape (length mask) u = true)); [|done].
  intros u Hu. by apply jacobi_step_total.
Qed.

(** So does the Hybrid Solver, with an operator that keeps the shape. *)
Lemma solveHybrid_total op (mask : grid bool) (B f u0 : grid R) k :
  has_shape (length mask) mask = true → has_shape (length mask) B = true →
  (∀ v, has_shape (length mask) v = true →
        ∃ v', op v = Ok v' ∧ has_shape (length mask) v' = true) →
  has_shape (length mask) u0 = true →
  ∃ u, solveHybrid op mask B f u0 k = Ok u ∧
       has_shape (length mask) u = true.
Proof.
  intros Sm Sb Hop Su. unfold solveHybrid.
  apply (iterate_total (λ u, has_shape (length mask) u = true)); [|done].
  intros u Hu. by apply hybrid_step_total.
Qed.

(** C5. Boundary invariant: in a run of either solver, the field after
    each iteration [t ≥ 1] holds, at every masked cell, exactly the
    boundary value of that cell; for the Hybrid Solver this is so
    whatever the external operator answers. *)
Theorem boundary_invariant h2 ghost (op : grid R → result (grid R))
    (mask : grid bool) (B f u0 : grid R) (k : nat) (i j : nat) :
  cell mask i j = Some true →
  (∀ u, solve h2 ghost mask B f u0 k = Ok u →
     ∀ t, (1 ≤ t ≤ k)%nat →
       ∃ ut, solve h2 ghost mask B f u0 t = Ok ut ∧
             is_Some (cell B i j) ∧ cell ut i j = cell B i j) ∧
  (∀ u, solveHybrid op mask B f u0 k = Ok u →
     ∀ t, (1 ≤ t ≤ k)%nat →
       ∃ ut, solveHybrid op mask B f u0 t = Ok ut ∧
             is_Some (cell B i j) ∧ cell ut i j = cell B i j).
Proof.
  intros Hm. unfold solve, solveHybrid. split; intros u Hrun t [Ht1 Htk].
  - destruct (iterate_prefix k t _ u0 u Htk Hrun) as [ut Hut].
    exists ut. split; [done|].
    destruct (iterate_last t _ u0 ut Ht1 Hut) as [u' Hstep].
    by eapply jacobi_step_masked.
  - destruct (iterate_prefix k t _ u0 u Htk Hrun) as [ut Hut].
    exists ut. split; [done|].
    destruct (iterate_last t _ u0 ut Ht1 Hut) as [u' Hstep].
    by eapply hybrid_step_masked.
Qed.
End BoundaryInvariant.

Section Claims.
Context {R : Type} `{Scalar R} {Rng Net : Type}.
Variable ext : collaborators R Rng Net.

(** C3. On a constructed instance, at any point of its life,
    [compute_solution net] calls the Hybrid Solver with exactly the
    stored mask, boundary values, right-hand side, initial approximate
    field and approximate iteration count, and with [net]; it stores the
    field that comes back under [u], over whatever an earlier call left
    there, and returns that same field. *)
Theorem compute_solution_calls_hybrid_solver kw g w0 w net :
  DirichletProblem ext kw g = (Ok tt, w0) →
  evolves ext w0 w →
  ∃ m b rhs u0 k,
    self w0 !! "B_idx" = Some m ∧ self w0 !! "B" = Some b ∧
    self w0 !! "f" = Some rhs ∧ self w0 !! "initial_u" = Some u0 ∧
    self w0 !! "k" = Some k ∧
    compute_solution ext net w =
      match H_method ext net m b rhs u0 k with
      | Ok u =>
          (Ok u, {| self := <["u" := u]> (self w); rng := rng w;
                    trace := trace w ++ [EvH net m b rhs u0 k] |})
      | Err e =>
          (Err e, {| self := self w; rng := rng w;
                     trace := trace w ++ [EvH net m b rhs u0 k] |})
      end ∧
    (∀ u w', compute_solution ext net w = (Ok u, w') →
             self w' !! "u" = Some u).
Proof.
  intros Hc Hev.
  destruct (constructed_attributes ext kw g w0 Hc)
    as (m & b & rhs & kgt & igt & iu & k & gt & Hs & _).
  destruct (built_lookup m b rhs kgt igt iu k gt ∅)
    as (L1 & L2 & L3 & _ & _ & L6 & L7 & _).
  rewrite <- Hs in L1, L2, L3, L6, L7.
  exists m, b, rhs, iu, k. split_and!; try done.
  - apply evolves_frame in Hev as [_ Hfr].
    apply compute_solution_run; rewrite Hfr; done.
  - intros u w' Hrun.
    apply evolves_frame in Hev as [_ Hfr].
    rewrite (compute_solution_run ext net w m b rhs iu k) in Hrun
      by (rewrite Hfr; done).
    destruct (H_method ext net m b rhs iu k); simplify_eq/=.
    apply lookup_insert_eq.
Qed.

(** C6. Frame: from construction on, whatever calls of
    [compute_solution] are made, every attribute other than the cached
    approximate solution [u] keeps the value construction gave it: the
    mask, the boundary values, the right-hand side, both initial fields,
    both iteration counts and the ground truth are all there and
    unchanged. *)
Theorem compute_solution_writes_only_u kw g w0 w :
  DirichletProblem ext kw g = (Ok tt, w0) →
  evolves ext w0 w →
  (∀ name, name ≠ "u" → self w !! name = self w0 !! name) ∧
  Forall (λ name, is_Some (self w0 !! name) ∧
                  self w !! name = self w0 !! name)
    ["B_idx"; "B"; "f"; "initial_ground_truth"; "initial_u";
     "k_ground_truth"; "k"; "ground_truth"].
Proof.
  intros Hc Hev. apply evolves_frame in Hev as [_ Hfr]. split; [done|].
  destruct (constructed_attributes ext kw g w0 Hc)
    as (m & b & rhs & kgt & igt & iu & k & gt & Hs & _).
  destruct (built_lookup m b rhs kgt igt iu k gt ∅)
    as (L1 & L2 & L3 & L4 & L5 & L6 & L7 & L8).
  rewrite <- Hs in L1, L2, L3, L4, L5, L6, L7, L8.
  repeat constructor; try (by apply Hfr).
  all: by eexists.
Qed.

(** C10. Every call of [compute_solution] starts from the stored
    [initial_u], never from the [u] an earlier call cached: two calls in
    a row with the same operator make the same call of the Hybrid Solver
    and give the same result, and the second leaves the object as the
    first left it. *)
Theorem compute_solution_restarts net w r1 w1 r2 w2 :
  compute_solution ext net w = (r1, w1) →
  compute_solution ext net w1 = (r2, w2) →
  r2 = r1 ∧ self w2 = self w1 ∧
  ∀ m b rhs u0 k,
    self w !! "B_idx" = Some m → self w !! "B" = Some b →
    self w !! "f" = Some rhs → self w !! "initial_u" = Some u0 →
    self w !! "k" = Some k →
    trace w2 =
      (trace w ++ [EvH net m b rhs u0 k; EvH net m b rhs u0 k])%list.
Proof.
  intros H1 H2.
  destruct (self w !! "B_idx") as [m|] eqn:L1;
  [destruct (self w !! "B") as [b|] eqn:L2;
   [destruct (self w !! "f") as [rhs|] eqn:L3;
    [destruct (self w !! "initial_u") as [u0|] eqn:L4;
     [destruct (self w !! "k") as [k|] eqn:L5|]|]|]|].
  - rewrite (compute_solution_run ext net w m b rhs u0 k) in H1 by done.
    destruct (compute_solution_frame ext net w r1 w1) as [_ Hfr].
    { by rewrite (compute_solution_run ext net w m b rhs u0 k). }
    rewrite (compute_solution_run ext net w1 m b rhs u0 k) in H2
      by (rewrite Hfr; done).
    destruct (H_method ext net m b rhs u0 k) as [u|e]; simplify_eq/=.
    + split_and!; [done | apply insert_insert_eq |].
      intros; simplify_eq. by rewrite <- app_assoc.
    + split_and!; [done..|]. intros; simplify_eq. by rewrite <- app_assoc.
  - destruct w as [s g t]. run. simpl in *. rewrite L1, L2, L3, L4, L5 in H1.
    simplify_eq. run. rewrite L1, L2, L3, L4, L5 in H2. simplify_eq.
    split_and!; [done..|]. intros; simplify_eq.
  - destruct w as [s g t]. run. simpl in *. rewrite L1, L2, L3, L4 in H1.
    simplify_eq. run. rewrite L1, L2, L3, L4 in H2. simplify_eq.
    split_and!; [done..|]. intros; simplify_eq.
  - destruct w as [s g t]. run. simpl in *. rewrite L1, L2, L3 in H1.
    simplify_eq. run. rewrite L1, L2, L3 in H2. simplify_eq.
    split_and!; [done..|]. intros; simplify_eq.
  - destruct w as [s g t]. run. simpl in *. rewrite L1, L2 in H1.
    simplify_eq. run. rewrite L1, L2 in H2. simplify_eq.
    split_and!; [done..|]. intros; simplify_eq.
  - destruct w as [s g t]. run. simpl in *. rewrite L1 in H1.
    simplify_eq. run. rewrite L1 in H2. simplify_eq.
    split_and!; [done..|]. intros; simplify_eq.
Qed.

(** C4. Every successful construction has computed the ground truth,
    once: the Jacobi solver was called exactly one time, as the last
    thing the constructor did, with the stored mask, boundary values,
    right-hand side, initial ground-truth field and ground-truth
    iteration count, and what it returned is stored under
    [ground_truth]. *)
Theorem construction_computes_ground_truth_once kw g w :
  DirichletProblem ext kw g = (Ok tt, w) →
  ∃ m b rhs igt kgt gt,
    self w !! "B_idx" = Some m ∧ self w !! "B" = Some b ∧
    self w !! "f" = Some rhs ∧
    self w !! "initial_ground_truth" = Some igt ∧
    self w !! "k_ground_truth" = Some kgt ∧
    jacobi_method ext m b rhs igt kgt = Ok gt ∧
    self w !! "ground_truth" = Some gt ∧
    List.filter is_jacobi_call (trace w) = [EvJacobi m b rhs igt kgt] ∧
    last (trace w) = Some (EvJacobi m b rhs igt kgt).
Proof.
  unfold DirichletProblem, bind_parameters. intros Hrun.
  apply init_ok_inv in Hrun
    as (_ & ev & m & b & rhs & evf & igt & g1 & evg & iu & g2 & evu & gt &
        Hgeo & Hf & Hg & Hu & Hj & ->).
  destruct (built_lookup m b rhs (default (VInt 1000) (kw_k_ground_truth kw))
              igt iu (default (VInt 20) (kw_k kw)) gt ∅)
    as (L1 & L2 & L3 & L4 & L5 & _ & _ & L8).
  eexists m, b, rhs, igt, _, gt. cbn [self trace].
  split_and!; try done.
  - apply jacobi_calls_of_run; eauto using chosen_geometry_not_jacobi,
      resolved_rhs_not_jacobi, resolved_initial_not_jacobi.
  - rewrite !app_assoc. apply last_snoc.
Qed.

(** C1 (what the code does with a mask of the caller's). When a mask
    is passed, geometry generation is skipped, but the mask and the
    boundary values are never assigned to the object: construction ends
    in an error before the Jacobi solver is reached, with neither
    [B_idx] nor [B] set, so no instance stores or uses the pair. *)
Theorem explicit_mask_is_never_stored kw g m :
  kw_B_idx kw = Some m → is_None m = false →
  ∃ e w,
    DirichletProblem ext kw g = (Err e, w) ∧
    self w !! "B_idx" = None ∧ self w !! "B" = None ∧
    Forall (λ ev, is_geometry_call ev = false ∧ is_jacobi_call ev = false)
           (trace w).
Proof.
  intros Hm Hnone. unfold DirichletProblem, bind_parameters.
  apply init_explicit_mask. by rewrite Hm.
Qed.

(** C2 (amended). When no mask is passed and the selector, lowered,
    is neither "square" nor "l_shape", construction fails with the
    [ValueError] of the selector before anything else happens: no
    attribute is assigned, no collaborator is called, the random source
    is untouched. *)
Theorem unknown_selector_is_rejected kw g dt :
  kw_B_idx kw = None ∨ kw_B_idx kw = Some VNone →
  kw_domain_type kw = Some dt →
  lower dt ≠ "square" → lower dt ≠ "l_shape" →
  DirichletProblem ext kw g =
    (Err (ValueError no_such_domain_type), fresh g).
Proof.
  intros HB Hdt H1 H2. unfold DirichletProblem, bind_parameters.
  rewrite Hdt. apply init_unknown_selector; auto using no_mask_is_None.
Qed.

(** C9. The selector is matched case-insensitively: with no mask
    passed, a selector that lowers to "square" or to "l_shape" has the
    generator of that name called, first; and when the collaborators
    answer, construction succeeds, with the mask and the boundary values
    of that generator stored on the instance. *)
Theorem selector_is_case_insensitive kw g dt ev m b
    rhs (evf : list (event R Net)) igt g1 evg iu g2 evu gt :
  let N := default 16 (kw_N kw) in
  let kgt := default (VInt 1000) (kw_k_ground_truth kw) in
  kw_B_idx kw = None ∨ kw_B_idx kw = Some VNone →
  kw_domain_type kw = Some dt →
  (lower dt = "square" ∧ ev = EvSquareGeometry N ∧
     square_geometry ext N = Ok (m, b)) ∨
  (lower dt = "l_shape" ∧ ev = EvLShapedGeometry N ∧
     l_shaped_geometry ext N = Ok (m, b)) →
  resolved_rhs (default VNone (kw_f kw)) N rhs evf →
  resolved_initial ext (default VNone (kw_initial_ground_truth kw))
    N false g igt g1 evg →
  resolved_initial ext (default VNone (kw_initial_u kw)) N true g1 iu g2 evu →
  jacobi_method ext m b rhs igt kgt = Ok gt →
  (∃ tl, trace (snd (DirichletProblem ext kw g)) = ev :: tl) ∧
  ∃ w, DirichletProblem ext kw g = (Ok tt, w) ∧
       self w !! "B_idx" = Some m ∧ self w !! "B" = Some b ∧
       trace w = ([ev] ++ evf ++ evg ++ evu ++
                  [EvJacobi m b rhs igt kgt])%list.
Proof.
  intros N kgt HB Hdt Hsel Hf Hg Hu Hj.
  assert (Hgeo : chosen_geometry ext dt N ev (Ok (m, b))).
  { destruct Hsel as [(? & ? & ?)|(? & ? & ?)]; [left|right]; auto. }
  apply no_mask_is_None in HB.
  unfold DirichletProblem, bind_parameters. rewrite Hdt. simpl default.
  split.
  - by eapply init_geometry_first.
  - eexists. split; [by eapply init_ok_intro|]. cbn [self trace].
    destruct (built_lookup m b rhs kgt igt iu
                (default (VInt 20) (kw_k kw)) gt ∅) as (L1 & L2 & _).
    done.
Qed.

(** C7. In a successful construction every option left out has taken
    its default: the right-hand side is the all-zero N×N field (as a
    [1, 1, N, N] tensor), the approximate iteration count is 20, the
    ground-truth iteration count is 1000, the grid size is 16 (the size
    the geometry generator is called with, and that of the zero field),
    and the domain shape is the square (the generator called, whose mask
    and boundary values are stored). *)
Theorem omitted_options_take_defaults kw g w :
  DirichletProblem ext kw g = (Ok tt, w) →
  (kw_f kw = None →
     ∀ N, kw_N kw = Some N ∨ (kw_N kw = None ∧ N = 16) →
       0 ≤ N ∧
       self w !! "f" =
         Some (VTensor
                 [[replicate (Z.to_nat N) (replicate (Z.to_nat N) s_zero)]])) ∧
  (kw_k kw = None → self w !! "k" = Some (VInt 20)) ∧
  (kw_k_ground_truth kw = None →
     self w !! "k_ground_truth" = Some (VInt 1000)) ∧
  (kw_N kw = None →
     ∃ tl, trace w = EvSquareGeometry 16 :: tl ∨
           trace w = EvLShapedGeometry 16 :: tl) ∧
  (kw_domain_type kw = None →
     ∃ N m b tl,
       trace w = EvSquareGeometry N :: tl ∧
       square_geometry ext N = Ok (m, b) ∧
       self w !! "B_idx" = Some m ∧ self w !! "B" = Some b).
Proof.
  unfold DirichletProblem, bind_parameters. intros Hrun.
  apply init_ok_inv in Hrun
    as (_ & ev & m & b & rhs & evf & igt & g1 & evg & iu & g2 & evu & gt &
        Hgeo & Hf & Hg & Hu & Hj & ->).
  destruct (built_lookup m b rhs (default (VInt 1000) (kw_k_ground_truth kw))
              igt iu (default (VInt 20) (kw_k kw)) gt ∅)
    as (L1 & L2 & L3 & L4 & L5 & L6 & L7 & L8).
  cbn [self trace]. split_and!.
  - intros Hnone N HN. rewrite Hnone in Hf. unfold resolved_rhs in Hf.
    simpl in Hf. destruct Hf as [(t & Ht & ->) _].
    assert (default 16 (kw_N kw) = N) as HN'
      by (destruct HN as [-> | [-> ->]]; reflexivity).
    rewrite HN' in Ht. apply torch_zeros_inv in Ht as [? ->]. by split.
  - intros Hnone. rewrite Hnone in L7 |- *. exact L7.
  - intros Hnone. rewrite Hnone in L5 |- *. exact L5.
  - intros Hnone. rewrite Hnone in Hgeo. simpl in Hgeo.
    apply chosen_geometry_event in Hgeo as [-> | ->]; eexists; [left|right];
      reflexivity.
  - intros Hnone. rewrite Hnone in Hgeo. simpl in Hgeo.
    apply chosen_geometry_default in Hgeo as [-> Hr].
    by eexists _, m, b, _.
Qed.
End Claims.

(** ** Shapes: where a field of the wrong shape is found *)

Section ShapeErrors.
Context {R : Type} `{Scalar R}.
Variables h2 ghost : R.
Variable bval : nat → nat → R.
Variable sample : nat → nat → nat → R.

Local Abbreviation E := (reference h2 ghost bval sample).

End ShapeErrors.

(** * Further properties of [problems.py] *)

Section Extras.
Context {R : Type} `{Scalar R} {Rng Net : Type}.
Variable ext : collaborators R Rng Net.

(** X1. A constructed instance has exactly nine attributes: the mask,
    the boundary values, the right-hand side, the two initial fields,
    the two iteration counts, the placeholder [_ground_truth] and the
    ground truth.  In particular it has no [u] yet: reading
    [problem.u] before the first [compute_solution] is an error. *)
Theorem constructed_attribute_names kw g w :
  DirichletProblem ext kw g = (Ok tt, w) →
  self w !! "u" = None ∧
  ∀ name,
    is_Some (self w !! name) ↔
    name ∈ ["B_idx"; "B"; "f"; "initial_ground_truth"; "k_ground_truth";
            "_ground_truth"; "initial_u"; "k"; "ground_truth"].
Proof.
  intros Hc.
  destruct (constructed_attributes ext kw g w Hc)
    as (m & b & rhs & kgt & igt & iu & k & gt & -> & _).
  unfold built, assigned. split.
  - rewrite !lookup_insert_ne by done. apply lookup_empty.
  - intros name. rewrite !lookup_insert_is_Some', lookup_empty.
    rewrite !elem_of_cons, elem_of_nil.
    split; [intros Hs | intros Hl].
    + destruct_or!; subst; auto 10. all: by destruct Hs.
    + destruct_or!; subst; auto 10. all: done.
Qed.

(** X2. The placeholder [_ground_truth] is set to [None] by the
    constructor and stays [None] for the life of the instance: the
    ground truth lives under [ground_truth], and no call ever fills the
    underscored attribute. *)
Theorem placeholder_ground_truth_stays_none kw g w0 w :
  DirichletProblem ext kw g = (Ok tt, w0) →
  evolves ext w0 w →
  self w !! "_ground_truth" = Some VNone.
Proof.
  intros Hc Hev. apply evolves_frame in Hev as [_ Hfr].
  rewrite Hfr by done.
  destruct (constructed_attributes ext kw g w0 Hc)
    as (m & b & rhs & kgt & igt & iu & k & gt & -> & _).
  unfold built, assigned.
  rewrite !lookup_insert_ne by done. apply lookup_insert_eq.
Qed.

(** X3. A call of [compute_solution] that raises leaves the object
    exactly as it was, the cached [u] of an earlier call included, and
    does not touch the random source. *)
Theorem failed_solve_keeps_object net w e w' :
  compute_solution ext net w = (Err e, w') →
  self w' = self w ∧ rng w' = rng w.
Proof.
  destruct w as [s g t]. intros Hrun. run. run_all; try done.
  all: exfalso;
    match goal with
    | Hx : <[_:=_]> _ !! _ = None |- _ =>
        rewrite lookup_insert_eq in Hx; discriminate Hx
    end.
Qed.

(** X4. [compute_solution] reads [B_idx], [B], [f], [initial_u], [k]
    in that order before it calls the solver: on an object that lacks
    one of them the call ends in the [AttributeError] of the first one
    missing, and the Hybrid Solver is not called. *)
Theorem solve_needs_its_attributes net w :
  (self w !! "B_idx" = None →
     compute_solution ext net w = (Err (AttributeError "B_idx"), w)) ∧
  (is_Some (self w !! "B_idx") → self w !! "B" = None →
     compute_solution ext net w = (Err (AttributeError "B"), w)) ∧
  (is_Some (self w !! "B_idx") → is_Some (self w !! "B") →
   self w !! "f" = None →
     compute_solution ext net w = (Err (AttributeError "f"), w)) ∧
  (is_Some (self w !! "B_idx") → is_Some (self w !! "B") →
   is_Some (self w !! "f") → self w !! "initial_u" = None →
     compute_solution ext net w = (Err (AttributeError "initial_u"), w)) ∧
  (is_Some (self w !! "B_idx") → is_Some (self w !! "B") →
   is_Some (self w !! "f") → is_Some (self w !! "initial_u") →
   self w !! "k" = None →
     compute_solution ext net w = (Err (AttributeError "k"), w)).
Proof.
  destruct w as [s g t]. cbn [self]. run.
  split_and!.
  - by intros ->.
  - by intros [? ->] ->.
  - by intros [? ->] [? ->] ->.
  - by intros [? ->] [? ->] [? ->] ->.
  - by intros [? ->] [? ->] [? ->] [? ->] ->.
Qed.

(** X5. Whatever sits under [u] on an instance was put there by the
    Hybrid Solver: it is the field [H_method] returned for some
    operator on the stored mask, boundary values, right-hand side,
    initial approximate field and iteration count. *)
Theorem cached_solution_comes_from_solver kw g w0 w u :
  DirichletProblem ext kw g = (Ok tt, w0) →
  evolves ext w0 w →
  self w !! "u" = Some u →
  ∃ net m b rhs u0 k,
    self w0 !! "B_idx" = Some m ∧ self w0 !! "B" = Some b ∧
    self w0 !! "f" = Some rhs ∧ self w0 !! "initial_u" = Some u0 ∧
    self w0 !! "k" = Some k ∧
    H_method ext net m b rhs u0 k = Ok u.
Proof.
  intros Hc Hev.
  destruct (constructed_attributes ext kw g w0 Hc)
    as (m & b & rhs & kgt & igt & iu & k & gt & Hs & _).
  destruct (built_lookup m b rhs kgt igt iu k gt ∅)
    as (L1 & L2 & L3 & _ & _ & L6 & L7 & _).
  rewrite <- Hs in L1, L2, L3, L6, L7.
  assert (Hnou : self w0 !! "u" = None).
  { rewrite Hs. unfold built, assigned.
    rewrite !lookup_insert_ne by done. apply lookup_empty. }
  revert u. induction Hev as [|w1 net r w2 Hev IH Hrun]; intros u Hu.
  - congruence.
  - destruct (evolves_frame ext w0 w1 Hev) as [_ Hfr].
    rewrite (compute_solution_run ext net w1 m b rhs iu k) in Hrun
      by (rewrite Hfr; done).
    destruct (H_method ext net m b rhs iu k) as [u'|e] eqn:HH;
      simplify_eq/=.
    + rewrite lookup_insert_eq in Hu. simplify_eq.
      by exists net, m, b, rhs, iu, k.
    + by apply IH.
Qed.

Lemma sample_calls_of_run (ev : event R Net) evf evg evu last :
  is_sample_call ev = false →
  Forall (λ e, is_sample_call e = false) evf →
  is_sample_call last = false →
  List.filter is_sample_call ([ev] ++ evf ++ evg ++ evu ++ [last]) =
    (List.filter is_sample_call evg ++ List.filter is_sample_call evu)%list.
Proof.
  intros Hev Hf Hl.
  assert (Hnone : List.filter is_sample_call evf = []).
  { induction Hf as [|e l He _ IH]; simpl; [done|]. by rewrite He. }
  rewrite !List.filter_app. simpl. rewrite Hev, Hl, Hnone.
  by rewrite app_nil_r.
Qed.

Lemma resolved_initial_samples x N rg g x' g' (evs : list (event R Net)) :
  resolved_initial ext x N rg g x' g' evs →
  List.filter is_sample_call evs =
    if is_None x then [EvNormalTensor N rg] else [].
Proof.
  unfold resolved_initial. destruct (is_None x).
  - by intros [_ ->].
  - by intros (_ & _ & ->).
Qed.

Lemma resolved_rhs_not_sample f N rhs (evs : list (event R Net)) :
  resolved_rhs f N rhs evs → Forall (λ e, is_sample_call e = false) evs.
Proof.
  unfold resolved_rhs. destruct (is_None f); intros [_ ->];
    repeat constructor.
Qed.

Lemma chosen_geometry_not_sample dt N (ev : event R Net) r :
  chosen_geometry ext dt N ev r → is_sample_call ev = false.
Proof. by intros [(_ & -> & _)|(_ & -> & _)]. Qed.

(** X6. The constructor draws from the random source only for the
    initial fields that were left out, the ground-truth one first
    (without gradient tracking), then the approximate one (with it), the
    second draw starting where the first one stopped; with both fields
    passed the random source is left untouched. *)
Theorem construction_draws_only_for_omitted_fields kw g w :
  let N := default 16 (kw_N kw) in
  let igt := default VNone (kw_initial_ground_truth kw) in
  let iu := default VNone (kw_initial_u kw) in
  DirichletProblem ext kw g = (Ok tt, w) →
  List.filter is_sample_call (trace w) =
    ((if is_None igt then [EvNormalTensor N false] else []) ++
     (if is_None iu then [EvNormalTensor N true] else []))%list ∧
  (is_None igt = false → is_None iu = false →
     rng w = g ∧ self w !! "initial_ground_truth" = Some igt ∧
     self w !! "initial_u" = Some iu) ∧
  (is_None igt = true → is_None iu = true →
     ∃ x g1 y,
       normal_distributed_tensor ext N false g = (Ok x, g1) ∧
       normal_distributed_tensor ext N true g1 = (Ok y, rng w) ∧
       self w !! "initial_ground_truth" = Some x ∧
       self w !! "initial_u" = Some y).
Proof.
  intros N igt iu. unfold DirichletProblem, bind_parameters. intros Hrun.
  apply init_ok_inv in Hrun
    as (_ & ev & m & b & rhs & evf & igt' & g1 & evg & iu' & g2 & evu & gt &
        Hgeo & Hf & Hg & Hu & Hj & ->).
  destruct (built_lookup m b rhs (default (VInt 1000) (kw_k_ground_truth kw))
              igt' iu' (default (VInt 20) (kw_k kw)) gt ∅)
    as (_ & _ & _ & L4 & _ & L6 & _ & _).
  cbn [self trace rng]. split_and!.
  - rewrite (sample_calls_of_run ev evf evg evu);
      eauto using chosen_geometry_not_sample, resolved_rhs_not_sample.
    by rewrite (resolved_initial_samples _ _ _ _ _ _ _ Hg),
      (resolved_initial_samples _ _ _ _ _ _ _ Hu).
  - intros Ng Nu. unfold resolved_initial in Hg, Hu. fold igt iu in Hg, Hu.
    rewrite Ng in Hg. rewrite Nu in Hu.
    destruct Hg as (-> & -> & _). destruct Hu as (-> & -> & _). done.
  - intros Ng Nu. unfold resolved_initial in Hg, Hu. fold igt iu in Hg, Hu.
    rewrite Ng in Hg. rewrite Nu in Hu.
    destruct Hg as [Hg _]. destruct Hu as [Hu _].
    by exists igt', g1, iu'.
Qed.

(** X7. Boundary values passed without a mask are discarded: the
    generator the selector names is still called, and it is its mask and
    its boundary values that the instance stores, whatever was passed
    as [B]. *)
Theorem boundary_values_alone_are_discarded kw g w B :
  let N := default 16 (kw_N kw) in
  kw_B kw = Some B →
  DirichletProblem ext kw g = (Ok tt, w) →
  ∃ ev m b tl,
    chosen_geometry ext (default "square" (kw_domain_type kw)) N ev
      (Ok (m, b)) ∧
    trace w = ev :: tl ∧
    self w !! "B_idx" = Some m ∧ self w !! "B" = Some b.
Proof.
  intros N _. unfold DirichletProblem, bind_parameters. intros Hrun.
  apply init_ok_inv in Hrun
    as (_ & ev & m & b & rhs & evf & igt' & g1 & evg & iu' & g2 & evu & gt &
        Hgeo & Hf & Hg & Hu & Hj & ->).
  destruct (built_lookup m b rhs (default (VInt 1000) (kw_k_ground_truth kw))
              igt' iu' (default (VInt 20) (kw_k kw)) gt ∅)
    as (L1 & L2 & _).
  exists ev, m, b, (evf ++ evg ++ evu ++ [EvJacobi m b rhs igt'
      (default (VInt 1000) (kw_k_ground_truth kw))])%list.
  cbn [self trace]. done.
Qed.

(** X8. An error of the geometry generator comes back from the
    constructor unchanged, and it does so before anything is assigned:
    the object is left without a single attribute, and the generator was
    the only thing called. *)
Theorem generator_error_leaves_nothing kw g ev e :
  let N := default 16 (kw_N kw) in
  kw_B_idx kw = None ∨ kw_B_idx kw = Some VNone →
  chosen_geometry ext (default "square" (kw_domain_type kw)) N ev (Err e) →
  DirichletProblem ext kw g =
    (Err e, {| self := ∅; rng := g; trace := [ev] |}).
Proof.
  intros N HB Hgeo. subst N. apply no_mask_is_None in HB.
  unfold DirichletProblem, bind_parameters. run. rewrite HB.
  destruct Hgeo as [(E & -> & <-)|(E & -> & <-)]; rewrite E; reflexivity.
Qed.

(** X9. The error of the selector, raised with nothing assigned and
    nothing called, has one cause only: no mask was passed and the
    selector, lowered, is neither "square" nor "l_shape". *)
Theorem selector_error_has_one_cause kw g :
  let dt := default "square" (kw_domain_type kw) in
  DirichletProblem ext kw g =
    (Err (ValueError no_such_domain_type), fresh g) ↔
  (kw_B_idx kw = None ∨ kw_B_idx kw = Some VNone) ∧
  lower dt ≠ "square" ∧ lower dt ≠ "l_shape".
Proof.
  intros dt. split.
  - intros Hrun.
    assert (HB : is_None (default VNone (kw_B_idx kw)) = true).
    { destruct (is_None (default VNone (kw_B_idx kw))) eqn:HB; [done|].
      exfalso. unfold DirichletProblem, bind_parameters in Hrun.
      run. rewrite HB in Hrun. run_all. }
    split.
    { destruct (kw_B_idx kw) as [[]|]; simplify_eq/=; auto. }
    assert (Hno : ∀ ev r,
              ¬ chosen_geometry ext dt (default 16 (kw_N kw)) ev r).
    { intros ev r Hgeo.
      destruct (init_geometry_first ext _ (default VNone (kw_B kw))
                  (default VNone (kw_f kw)) (default (VInt 20) (kw_k kw))
                  (default (VInt 1000) (kw_k_ground_truth kw))
                  (default VNone (kw_initial_ground_truth kw))
                  (default VNone (kw_initial_u kw)) _ _ g ev r HB Hgeo)
        as [tl Htl].
      unfold DirichletProblem, bind_parameters in Hrun. fold dt in Hrun.
      rewrite Hrun in Htl. discriminate Htl. }
    split; intros E.
    + eapply Hno. left. eauto.
    + eapply Hno. right. eauto.
  - intros (HB & H1 & H2). unfold DirichletProblem, bind_parameters.
    apply init_unknown_selector; auto using no_mask_is_None.
Qed.


(** X11. [compute_solution] raises nothing of its own either: a call
    that fails either found one of the five attributes it reads missing,
    before the solver was called, or hands on the error of the Hybrid
    Solver unchanged. *)
Theorem solve_errors_have_two_sources net w e w' :
  compute_solution ext net w = (Err e, w') →
  (∃ name, name ∈ ["B_idx"; "B"; "f"; "initial_u"; "k"] ∧
           e = AttributeError name ∧ self w !! name = None ∧ w' = w) ∨
  (∃ m b rhs u0 k,
     self w !! "B_idx" = Some m ∧ self w !! "B" = Some b ∧
     self w !! "f" = Some rhs ∧ self w !! "initial_u" = Some u0 ∧
     self w !! "k" = Some k ∧
     H_method ext net m b rhs u0 k = Err e ∧
     trace w' = (trace w ++ [EvH net m b rhs u0 k])%list).
Proof.
  destruct w as [s g t]. intros Hrun. run. run_all.
  all: try (exfalso;
            match goal with
            | Hx : <[_:=_]> _ !! _ = None |- _ =>
                rewrite lookup_insert_eq in Hx; discriminate Hx
            end).
  all: try (right; eexists _, _, _, _, _; split_and!; eauto; fail).
  all: left; eexists; split_and!; [|reflexivity|eassumption|reflexivity];
    rewrite !elem_of_cons; auto 10.
Qed.
End Extras.

(** * The claims at work on the demonstration engine *)

Import Demo Demo2.

(** On a 3×3 square with the boundary held at 1, after two iterations
    from noise, the masked cell (0, 1) reads 1 in both solvers, the
    hybrid one being driven by an operator that answers zero. *)
Lemma boundary_invariant_witness :
  cell (square_mask 3) 0 1 = Some true ∧
  (∃ u, solve (1 # 9)%Q 0%Q (square_mask 3)
          (boundary_values ones (square_mask 3)) (const_grid 3 0%Q)
          (tabulate 3 (noise 0)) 2 = Ok u ∧ cell u 0 1 = Some 1%Q) ∧
  (∃ u, solveHybrid (zero_net 3) (square_mask 3)
          (boundary_values ones (square_mask 3)) (const_grid 3 0%Q)
          (tabulate 3 (noise 0)) 2 = Ok u ∧ cell u 0 1 = Some 1%Q).
Proof.
  pose proof (boundary_invariant (1 # 9)%Q 0%Q (zero_net 3) (square_mask 3)
    (boundary_values ones (square_mask 3)) (const_grid 3 0%Q)
    (tabulate 3 (noise 0)) 2 0 1 eq_refl) as [Hs Hh].
  split; [reflexivity|]. split.
  - destruct (Hs _ eq_refl 2%nat (conj (le_S _ _ (le_n 1)) (le_n 2)))
      as (ut & Hut & _ & Hc).
    exists ut. split; [exact Hut | exact Hc].
  - destruct (Hh _ eq_refl 2%nat (conj (le_S _ _ (le_n 1)) (le_n 2)))
      as (ut & Hut & _ & Hc).
    exists ut. split; [exact Hut | exact Hc].
Defined.

Lemma small_problem_constructed :
  DirichletProblem engine kw_small 0%nat = (Ok tt, small_problem).
Proof. vm_compute. reflexivity. Qed.

Lemma compute_solution_calls_hybrid_solver_witness :
  ∃ m b rhs u0 k,
    self small_problem !! "B_idx" = Some m ∧
    self small_problem !! "B" = Some b ∧
    self small_problem !! "f" = Some rhs ∧
    self small_problem !! "initial_u" = Some u0 ∧
    self small_problem !! "k" = Some k ∧
    compute_solution engine (zero_net 4) small_problem =
      match H_method engine (zero_net 4) m b rhs u0 k with
      | Ok u =>
          (Ok u, {| self := <["u" := u]> (self small_problem);
                    rng := rng small_problem;
                    trace := trace small_problem ++
                             [EvH (zero_net 4) m b rhs u0 k] |})
      | Err e =>
          (Err e, {| self := self small_problem; rng := rng small_problem;
                     trace := trace small_problem ++
                              [EvH (zero_net 4) m b rhs u0 k] |})
      end ∧
    (∀ u w', compute_solution engine (zero_net 4) small_problem = (Ok u, w') →
             self w' !! "u" = Some u).
Proof.
  apply (compute_solution_calls_hybrid_solver engine kw_small 0%nat
           small_problem small_problem (zero_net 4)).
  - vm_compute. reflexivity.
  - apply evolves_refl.
Defined.

Lemma compute_solution_writes_only_u_witness :
  (∀ name, name ≠ "u" →
     self (snd small_solved) !! name = self small_problem !! name) ∧
  Forall (λ name, is_Some (self small_problem !! name) ∧
                  self (snd small_solved) !! name =
                  self small_problem !! name)
    ["B_idx"; "B"; "f"; "initial_ground_truth"; "initial_u";
     "k_ground_truth"; "k"; "ground_truth"].
Proof.
  apply (compute_solution_writes_only_u engine kw_small 0%nat).
  - vm_compute. reflexivity.
  - apply (evolves_step engine small_problem small_problem (zero_net 4)
             (fst small_solved) (snd small_solved)).
    + apply evolves_refl.
    + apply surjective_pairing.
Defined.

Lemma compute_solution_restarts_witness :
  fst small_solved_again = fst small_solved ∧
  self (snd small_solved_again) = self (snd small_solved).
Proof.
  destruct (compute_solution_restarts engine (zero_net 4) small_problem
              (fst small_solved) (snd small_solved)
              (fst small_solved_again) (snd small_solved_again))
    as (Hr & Hs & _).
  - apply surjective_pairing.
  - apply surjective_pairing.
  - split; [exact Hr | exact Hs].
Defined.

Lemma construction_computes_ground_truth_once_witness :
  ∃ m b rhs igt kgt gt,
    self small_problem !! "B_idx" = Some m ∧
    self small_problem !! "B" = Some b ∧
    self small_problem !! "f" = Some rhs ∧
    self small_problem !! "initial_ground_truth" = Some igt ∧
    self small_problem !! "k_ground_truth" = Some kgt ∧
    jacobi_method engine m b rhs igt kgt = Ok gt ∧
    self small_problem !! "ground_truth" = Some gt ∧
    List.filter is_jacobi_call (trace small_problem) =
      [EvJacobi m b rhs igt kgt] ∧
    last (trace small_problem) = Some (EvJacobi m b rhs igt kgt).
Proof.
  apply (construction_computes_ground_truth_once engine kw_small 0%nat).
  vm_compute. reflexivity.
Defined.

Lemma explicit_mask_is_never_stored_witness :
  ∃ e w,
    DirichletProblem engine kw_explicit_mask 0%nat = (Err e, w) ∧
    self w !! "B_idx" = None ∧ self w !! "B" = None ∧
    Forall (λ ev, is_geometry_call ev = false ∧ is_jacobi_call ev = false)
           (trace w).
Proof.
  apply (explicit_mask_is_never_stored engine kw_explicit_mask 0%nat
           (VMask [[square_mask 2]])); reflexivity.
Defined.

(** C1, at a concrete call: a 2×2 mask passed to the constructor ends
    in [AttributeError], raised by the read of [self.B_idx]. *)
Lemma explicit_mask_attribute_error :
  fst (DirichletProblem engine kw_explicit_mask 0%nat) =
    Err (AttributeError "B_idx").
Proof. vm_compute. reflexivity. Qed.

(** C2, as stated, fails: "Square" is neither of the two listed
    selectors, yet construction succeeds; and with a mask passed, a
    selector that names nothing is not even looked at: the error is not
    the selector's, and attributes have been assigned by then. *)
Lemma unlisted_selector_is_accepted :
  kw_domain_type kw_small = Some "Square" ∧
  "Square" ≠ "square" ∧ "Square" ≠ "l_shape" ∧
  DirichletProblem engine kw_small 0%nat = (Ok tt, small_problem) ∧
  is_Some (self small_problem !! "B_idx") ∧
  kw_domain_type kw_explicit_mask_circle = Some "circle" ∧
  fst (DirichletProblem engine kw_explicit_mask_circle 0%nat) =
    Err (AttributeError "B_idx") ∧
  is_Some (self (snd (DirichletProblem engine kw_explicit_mask_circle 0%nat))
             !! "f").
Proof.
  split; [reflexivity|]. split; [discriminate|]. split; [discriminate|].
  split; [vm_compute; reflexivity|]. split; [vm_compute; eauto|].
  split; [reflexivity|]. split; [vm_compute; reflexivity|].
  vm_compute. eauto.
Qed.

Lemma unknown_selector_is_rejected_witness :
  DirichletProblem engine kw_circle 0%nat =
    (Err (ValueError no_such_domain_type), fresh 0%nat).
Proof.
  apply (unknown_selector_is_rejected engine kw_circle 0%nat "circle").
  - left. reflexivity.
  - reflexivity.
  - discriminate.
  - discriminate.
Defined.

Lemma selector_is_case_insensitive_witness :
  (∃ tl, trace (snd (DirichletProblem engine kw_small 0%nat)) =
         EvSquareGeometry 4 :: tl) ∧
  ∃ w, DirichletProblem engine kw_small 0%nat = (Ok tt, w) ∧
       self w !! "B_idx" = Some (VMask [[square_mask 4]]) ∧
       self w !! "B" =
         Some (of_grid (boundary_values ones (square_mask 4))) ∧
       trace w =
         ([EvSquareGeometry 4] ++ [EvZeros 1 1 4 4] ++
          [EvNormalTensor 4 false] ++ [EvNormalTensor 4 true] ++
          [EvJacobi (VMask [[square_mask 4]])
             (of_grid (boundary_values ones (square_mask 4)))
             (VTensor (full 1 1 4 4 0%Q))
             (of_grid (tabulate 4 (noise 0))) (VInt 3)])%list.
Proof.
  apply (selector_is_case_insensitive engine kw_small 0%nat "Square"
           (EvSquareGeometry 4) (VMask [[square_mask 4]])
           (of_grid (boundary_values ones (square_mask 4)))
           (VTensor (full 1 1 4 4 0%Q)) [EvZeros 1 1 4 4]
           (of_grid (tabulate 4 (noise 0))) 1%nat [EvNormalTensor 4 false]
           (of_grid (tabulate 4 (noise 1))) 2%nat [EvNormalTensor 4 true]
           small_ground_truth).
  - left. reflexivity.
  - reflexivity.
  - left. split; [reflexivity|]. split; reflexivity.
  - split; [|reflexivity]. eexists. split; reflexivity.
  - split; reflexivity.
  - split; reflexivity.
  - vm_compute. reflexivity.
Defined.

Lemma omitted_options_take_defaults_witness :
  self default_problem !! "f" =
    Some (VTensor [[replicate 16 (replicate 16 0)]]) ∧
  self default_problem !! "k" = Some (VInt 20) ∧
  self default_problem !! "k_ground_truth" = Some (VInt 1000) ∧
  (∃ tl, trace default_problem = EvSquareGeometry 16 :: tl ∨
         trace default_problem = EvLShapedGeometry 16 :: tl) ∧
  (∃ N m b tl,
     trace default_problem = EvSquareGeometry N :: tl ∧
     square_geometry fixed_engine N = Ok (m, b) ∧
     self default_problem !! "B_idx" = Some m ∧
     self default_problem !! "B" = Some b).
Proof.
  assert (Hc : DirichletProblem fixed_engine no_kwargs 0%nat =
               (Ok tt, default_problem)) by (vm_compute; reflexivity).
  destruct (omitted_options_take_defaults fixed_engine no_kwargs 0%nat
              default_problem Hc)
    as (Hf & Hk & Hkgt & HN & Hdt).
  split.
  - exact (proj2 (Hf eq_refl 16 (or_intror (conj eq_refl eq_refl)))).
  - split; [exact (Hk eq_refl)|]. split; [exact (Hkgt eq_refl)|].
    split; [exact (HN eq_refl) | exact (Hdt eq_refl)].
Defined.



(** * The further properties at work *)

Import Demo4.

Lemma constructed_attribute_names_witness :
  self small_problem !! "u" = None ∧
  ∀ name,
    is_Some (self small_problem !! name) ↔
    name ∈ ["B_idx"; "B"; "f"; "initial_ground_truth"; "k_ground_truth";
            "_ground_truth"; "initial_u"; "k"; "ground_truth"].
Proof.
  apply (constructed_attribute_names engine kw_small 0%nat).
  vm_compute. reflexivity.
Defined.

Lemma placeholder_ground_truth_stays_none_witness :
  self (snd small_solved) !! "_ground_truth" = Some VNone.
Proof.
  apply (placeholder_ground_truth_stays_none engine kw_small 0%nat
           small_problem).
  - vm_compute. reflexivity.
  - apply (evolves_step engine small_problem small_problem (zero_net 4)
             (fst small_solved) (snd small_solved)).
    + apply evolves_refl.
    + apply surjective_pairing.
Defined.

Lemma failed_solve_keeps_object_witness :
  fst small_failed = Err OperatorContractViolation ∧
  self (snd small_failed) = self (snd small_solved) ∧
  rng (snd small_failed) = rng (snd small_solved).
Proof.
  split; [vm_compute; reflexivity|].
  apply (failed_solve_keeps_object engine one_cell_net (snd small_solved)
           OperatorContractViolation).
  vm_compute. reflexivity.
Defined.

Lemma cached_solution_comes_from_solver_witness :
  ∃ net m b rhs u0 k,
    self small_problem !! "B_idx" = Some m ∧
    self small_problem !! "B" = Some b ∧
    self small_problem !! "f" = Some rhs ∧
    self small_problem !! "initial_u" = Some u0 ∧
    self small_problem !! "k" = Some k ∧
    H_method engine net m b rhs u0 k = Ok small_u.
Proof.
  apply (cached_solution_comes_from_solver engine kw_small 0%nat
           small_problem (snd small_solved) small_u).
  - vm_compute. reflexivity.
  - apply (evolves_step engine small_problem small_problem (zero_net 4)
             (fst small_solved) (snd small_solved)).
    + apply evolves_refl.
    + apply surjective_pairing.
  - vm_compute. reflexivity.
Defined.

Lemma construction_draws_only_for_omitted_fields_witness :
  List.filter is_sample_call (trace small_problem) =
    [EvNormalTensor 4 false; EvNormalTensor 4 true] ∧
  ∃ x g1 y,
    normal_distributed_tensor engine 4 false 0%nat = (Ok x, g1) ∧
    normal_distributed_tensor engine 4 true g1 = (Ok y, rng small_problem) ∧
    self small_problem !! "initial_ground_truth" = Some x ∧
    self small_problem !! "initial_u" = Some y.
Proof.
  destruct (construction_draws_only_for_omitted_fields engine kw_small 0%nat
              small_problem) as (Hf & _ & Hboth).
  - vm_compute. reflexivity.
  - split; [exact Hf | exact (Hboth eq_refl eq_refl)].
Defined.

Lemma boundary_values_alone_are_discarded_witness :
  ∃ ev m b tl,
    chosen_geometry engine "l_shape" 4 ev (Ok (m, b)) ∧
    trace (snd (DirichletProblem engine kw_values_only 0%nat)) = ev :: tl ∧
    self (snd (DirichletProblem engine kw_values_only 0%nat)) !! "B_idx" =
      Some m ∧
    self (snd (DirichletProblem engine kw_values_only 0%nat)) !! "B" = Some b.
Proof.
  apply (boundary_values_alone_are_discarded engine kw_values_only 0%nat
           (snd (DirichletProblem engine kw_values_only 0%nat))
           (of_grid (const_grid 4 7%Q))).
  - reflexivity.
  - vm_compute. reflexivity.
Defined.

Lemma generator_error_leaves_nothing_witness :
  DirichletProblem no_geometry_engine kw_small 0%nat =
    (Err (RuntimeError "no geometry"),
     {| self := ∅; rng := 0%nat; trace := [EvSquareGeometry 4] |}).
Proof.
  apply (generator_error_leaves_nothing no_geometry_engine kw_small 0%nat
           (EvSquareGeometry 4) (RuntimeError "no geometry")).
  - left. reflexivity.
  - left. split; [reflexivity|]. split; reflexivity.
Defined.


Lemma solve_errors_have_two_sources_witness :
  (∃ name, name ∈ ["B_idx"; "B"; "f"; "initial_u"; "k"] ∧
           OperatorContractViolation = AttributeError name ∧
           self (snd small_solved) !! name = None ∧
           snd small_failed = snd small_solved) ∨
  (∃ m b rhs u0 k,
     self (snd small_solved) !! "B_idx" = Some m ∧
     self (snd small_solved) !! "B" = Some b ∧
     self (snd small_solved) !! "f" = Some rhs ∧
     self (snd small_solved) !! "initial_u" = Some u0 ∧
     self (snd small_solved) !! "k" = Some k ∧
     H_method engine one_cell_net m b rhs u0 k =
       Err OperatorContractViolation ∧
     trace (snd small_failed) =
       (trace (snd small_solved) ++ [EvH one_cell_net m b rhs u0 k])%list).
Proof.
  apply (solve_errors_have_two_sources engine one_cell_net (snd small_solved)).
  vm_compute. reflexivity.
Defined.
